(** * infermedica_api.connectors.v2: request shaping and session propagation

    A shallow embedding of [src/infermedica_api/connectors/v2.py]: the three
    connector classes [BasicAPIv2Connector], [APIv2Connector] and
    [ModelAPIv2Connector], over a store of dictionary and session objects,
    with Python's exceptions as an error result. *)

From stdpp Require Import gmap strings list fin_maps.

Set Warnings "-register-all,-clear-no-such-hyp".

(** ** Python values *)

(** Objects that the connectors mutate live in a store and are named by their
    location; what is only passed through is carried by its contents. *)
Definition loc := positive.

Inductive value :=
  | VNone
  | VBool (b : bool)
  | VInt (z : Z)
  | VStr (s : string)
  | VEnum (member : string)            (* a member of an [Enum] class *)
  | VList (l : list value)
  | VDict (d : gmap string value)      (* a dictionary, by its contents *)
  | VRef (l : loc).                    (* a dictionary object of the store *)

Abbreviation dict := (gmap string value).
Abbreviation heap := (gmap loc (gmap string value)).

(** Python's truth value of an object ([if x:]). *)
Definition truthy (h : heap) (v : value) : bool :=
  match v with
  | VNone => false
  | VBool b => b
  | VInt z => negb (z =? 0)%Z
  | VStr s => negb (String.eqb s "")
  | VEnum _ => true
  | VList l => negb (bool_decide (l = []))
  | VDict d => negb (bool_decide (d = ∅))
  | VRef l =>
      match h !! l with
      | Some d => negb (bool_decide (d = ∅))
      | None => true
      end
  end.

(** The mapping a value stands for, when it is one. *)
Definition mapping_of (h : heap) (v : value) : option dict :=
  match v with
  | VDict d => Some d
  | VRef l => h !! l
  | _ => None
  end.

(** ** Exceptions *)

Inductive exn :=
  | InvalidSearchConceptType (v : value)
  | TypeError
  | AttributeError
  | TransportError (status : Z) (body : value)
  | NetworkError
  | MalformedResponseError.

(** ** The session object

    Modelled from the spec: [models.Diagnosis] is not among the sources. The
    data model describes it as a mutable aggregate holding sex, age, the
    evidence list, extras and an interview id, together with the condition and
    question state that a diagnosis response updates. *)
Record Diagnosis := {
  patient_sex : value;
  patient_age : value;
  evidence : value;
  extras : value;
  interview_id : value;
  conditions : value;
  question : value;
}.

(** Modelled from the spec: [Diagnosis.get_api_request] is not among the
    sources; the Typed Result Mapper extracts sex, age, evidence and extras
    from the session object and passes them on as keyword arguments. *)
Definition get_api_request (s : Diagnosis) : dict :=
  {[ "sex" := patient_sex s; "age" := patient_age s;
     "evidence" := evidence s; "extras" := extras s ]}.

(** ** Collaborators

    Everything [v2.py] imports from [.common], [..models] and [..exceptions]
    and that the sources do not contain is a field of this record. *)

(** A call that leaves this module: the callee and its keyword arguments. *)
Record call := Call { c_callee : string; c_kwargs : gmap string value }.

Record API := {
  (** The layer below: [BasicAPICommonMethodsMixin]'s methods and
      [BaseAPIConnector.call_api_post], which end in the HTTP transport. It
      reads the dictionaries it is given and answers with JSON or raises. *)
  transport : call → heap → exn + value;
  (** [BaseAPIConnector._get_method] *)
  get_method : string → value;
  (** The configured name of the interview-id header. *)
  interview_id_header : string;
  (** [SearchConceptType.get_value] and [SearchConceptType.has_value] *)
  get_value : value → value;
  has_value : value → bool;
  (** [models.Diagnosis.update_from_api] *)
  update_from_api : Diagnosis → value → exn + Diagnosis;
  (** The typed results of [models] and their [from_json] constructors, by
      class name. *)
  model : Type;
  from_json : string → value → exn + model;
}.

(** ** Store, results and the monad of connector methods *)

Record state := State {
  dicts : heap;                          (* dictionary objects *)
  sessions : gmap loc Diagnosis;         (* session objects *)
  calls : list (call * heap);            (* calls made so far, each with the
                                            dictionaries as they were then *)
}.

Inductive result (A : Type) :=
  | Ok (a : A)
  | Raise (e : exn).
Arguments Ok {A} a.
Arguments Raise {A} e.

(** A method runs on the store and either returns or raises; what it did to
    the store before raising stays done. *)
Definition M (A : Type) : Type := state → result A * state.

Global Instance M_ret : MRet M := λ A a st, (Ok a, st).
Global Instance M_bind : MBind M := λ A B f m st,
  match m st with
  | (Ok a, st') => f a st'
  | (Raise e, st') => (Raise e, st')
  end.

Global Instance M_fmap : FMap M := λ A B f m, a ← m; mret (f a).

Definition raise {A} (e : exn) : M A := λ st, (Raise e, st).

Definition lift_sum {A} (r : exn + A) : M A :=
  match r with
  | inr a => mret a
  | inl e => raise e
  end.

Definition set_dicts (h : heap) (st : state) : state :=
  State h (sessions st) (calls st).

(** A new dictionary object ([{}] or a dict display). *)
Definition alloc (d : dict) : M value := λ st,
  let l := fresh (dom (dicts st)) in
  (Ok (VRef l), set_dicts (<[l := d]> (dicts st)) st).

(** [v.update(d)]: the entries of [d] replace those of [v] under the same
    key. Only dictionary objects have the method. *)
Definition dict_update (v : value) (d : dict) : M unit := λ st,
  match v with
  | VRef l =>
      match dicts st !! l with
      | Some d0 => (Ok (), set_dicts (<[l := d ∪ d0]> (dicts st)) st)
      | None => (Raise AttributeError, st)
      end
  | _ => (Raise AttributeError, st)
  end.

(** [v[k] = x] *)
Definition dict_setitem (v : value) (k : string) (x : value) : M unit := λ st,
  match v with
  | VRef l =>
      match dicts st !! l with
      | Some d0 => (Ok (), set_dicts (<[l := <[k := x]> d0]> (dicts st)) st)
      | None => (Raise TypeError, st)
      end
  | _ => (Raise TypeError, st)
  end.

(** [bool(v)] *)
Definition truth (v : value) : M bool := λ st, (Ok (truthy (dicts st) v), st).

(** [kwargs.pop(k, {})]: the argument passed under [k], or a new empty
    dictionary. A dictionary that was passed by its contents becomes an object
    here. *)
Definition kwargs_pop_dict (k : string) (kwargs : dict) : M (value * dict) :=
  match kwargs !! k with
  | Some (VDict d) => v ← alloc d; mret (v, delete k kwargs)
  | Some v => mret (v, delete k kwargs)
  | None => v ← alloc ∅; mret (v, kwargs)
  end.

(** [kwargs.pop(k, None)] *)
Definition kwargs_pop (k : string) (kwargs : dict) : value * dict :=
  (default VNone (kwargs !! k), delete k kwargs).

(** Two groups of keyword arguments in one call: a keyword given twice is a
    [TypeError]. *)
Definition keywords (a b : dict) : M dict :=
  if bool_decide (a ##ₘ b) then mret (a ∪ b) else raise TypeError.

(** The call itself: it is recorded, and the callee's answer is returned or
    its exception raised. *)
Definition invoke (api : API) (c : call) : M value := λ st,
  let st' := State (dicts st) (sessions st) (calls st ++ [(c, dicts st)]) in
  match transport api c (dicts st) with
  | inr v => (Ok v, st')
  | inl e => (Raise e, st')
  end.

(** A call of [super().callee] with explicit keywords and the unpacked
    [kwargs], where the parent class is [BasicAPICommonMethodsMixin]. *)
Definition mixin_call (api : API) (callee : string) (explicit kwargs : dict)
  : M value :=
  kw ← keywords explicit kwargs;
  invoke api (Call callee kw).

(** Modelled from the spec: [BaseAPIConnector.get_interview_id_headers] is not
    among the sources. The Session Header Propagator returns an empty mapping
    when no id is supplied, and otherwise a single entry associating the
    configured interview-id header name with the given value. *)
Definition get_interview_id_headers (api : API) (interview_id : value) : dict :=
  match interview_id with
  | VNone => ∅
  | v => {[ interview_id_header api := v ]}
  end.

(** ** class BasicAPIv2Connector *)
Module BasicAPIv2Connector.
Section methods.
Context (api : API).

Definition call_api_post (method data params headers : value) : M value :=
  invoke api (Call "call_api_post"
    {[ "method" := method; "data" := data;
       "params" := params; "headers" := headers ]}).

Definition red_flags (data params headers : value) : M value :=
  let method := get_method api "red_flags" in
  call_api_post method data params headers.

End methods.
End BasicAPIv2Connector.

(** ** class APIv2Connector *)

(** The dictionaries of the store, for a truth test. *)
Definition get_dicts : M heap := λ st, (Ok (dicts st), st).

(** Binding keyword arguments to a signature: a required parameter that is
    not given is a [TypeError]; what no parameter takes goes to [kwargs]. *)
Definition required (k : string) (kw : dict) : M value :=
  match kw !! k with
  | Some v => mret v
  | None => raise TypeError
  end.

Definition rest (named : list string) (kw : dict) : dict :=
  foldr delete kw named.

Module APIv2Connector.
Section methods.
Context (api : API).

Definition get_diagnostic_data_dict (h : heap)
    (evidence sex age extras : value) : dict :=
  let data := {[ "sex" := sex; "age" := age; "evidence" := evidence ]} in
  if truthy h extras then <["extras" := extras]> data else data.

(** The loop over [types_as_str_list]. *)
Fixpoint check_concept_types (types_as_str_list : list value) : M unit :=
  match types_as_str_list with
  | [] => mret ()
  | concept_type :: more =>
      if has_value api concept_type
      then check_concept_types more
      else raise (InvalidSearchConceptType concept_type)
  end.

Definition search (phrase sex max_results : value)
    (types : option (list value)) (kwargs : dict) : M value :=
  '(params, kwargs) ← kwargs_pop_dict "params" kwargs;
  dict_update params {[ "phrase" := phrase; "max_results" := max_results ]};;
  b ← truth sex;
  (if b : bool then dict_setitem params "sex" sex else mret ());;
  match types with
  | Some ((_ :: _) as types) =>
      let types_as_str_list := get_value api <$> types in
      check_concept_types types_as_str_list;;
      dict_setitem params "type" (VList types_as_str_list)
  | _ => mret ()
  end;;
  mixin_call api "search" {[ "params" := params ]} kwargs.

Definition parse (text include_tokens interview_id : value) (kwargs : dict)
  : M value :=
  let '(params, kwargs) := kwargs_pop "params" kwargs in
  '(headers, kwargs) ← kwargs_pop_dict "headers" kwargs;
  dict_update headers (get_interview_id_headers api interview_id);;
  '(data, kwargs) ← kwargs_pop_dict "data" kwargs;
  dict_update data {[ "text" := text; "include_tokens" := include_tokens ]};;
  mixin_call api "parse"
    {[ "data" := data; "params" := params; "headers" := headers ]} ∅.

Definition suggest (evidence sex age extras max_results interview_id : value)
    (kwargs : dict) : M value :=
  '(params, kwargs) ← kwargs_pop_dict "params" kwargs;
  dict_update params {[ "max_results" := max_results ]};;
  '(headers, kwargs) ← kwargs_pop_dict "headers" kwargs;
  dict_update headers (get_interview_id_headers api interview_id);;
  h ← get_dicts;
  let data := get_diagnostic_data_dict h evidence sex age extras in
  mixin_call api "suggest"
    {[ "data" := VDict data; "params" := params; "headers" := headers ]} ∅.

Definition red_flags (evidence sex age extras max_results interview_id : value)
    (kwargs : dict) : M value :=
  '(params, kwargs) ← kwargs_pop_dict "params" kwargs;
  dict_update params {[ "max_results" := max_results ]};;
  '(headers, kwargs) ← kwargs_pop_dict "headers" kwargs;
  dict_update headers (get_interview_id_headers api interview_id);;
  h ← get_dicts;
  let data := get_diagnostic_data_dict h evidence sex age extras in
  BasicAPIv2Connector.red_flags api (VDict data) params headers.

Definition diagnosis (evidence sex age extras interview_id : value)
    (kwargs : dict) : M value :=
  '(headers, kwargs) ← kwargs_pop_dict "headers" kwargs;
  dict_update headers (get_interview_id_headers api interview_id);;
  h ← get_dicts;
  let data := get_diagnostic_data_dict h evidence sex age extras in
  mixin_call api "diagnosis"
    {[ "data" := VDict data; "headers" := headers ]} kwargs.

Definition rationale (evidence sex age extras interview_id : value)
    (kwargs : dict) : M value :=
  '(headers, kwargs) ← kwargs_pop_dict "headers" kwargs;
  dict_update headers (get_interview_id_headers api interview_id);;
  h ← get_dicts;
  let data := get_diagnostic_data_dict h evidence sex age extras in
  mixin_call api "rationale"
    {[ "data" := VDict data; "headers" := headers ]} kwargs.

Definition explain (target_id evidence sex age extras interview_id : value)
    (kwargs : dict) : M value :=
  '(headers, kwargs) ← kwargs_pop_dict "headers" kwargs;
  dict_update headers (get_interview_id_headers api interview_id);;
  h ← get_dicts;
  let data := get_diagnostic_data_dict h evidence sex age extras in
  let data := <["target" := target_id]> data in
  mixin_call api "explain"
    {[ "data" := VDict data; "headers" := headers ]} kwargs.

Definition triage (evidence sex age extras interview_id : value)
    (kwargs : dict) : M value :=
  '(headers, kwargs) ← kwargs_pop_dict "headers" kwargs;
  dict_update headers (get_interview_id_headers api interview_id);;
  h ← get_dicts;
  let data := get_diagnostic_data_dict h evidence sex age extras in
  mixin_call api "triage"
    {[ "data" := VDict data; "headers" := headers ]} kwargs.

(** The same methods called with keyword arguments only, as the subclass
    calls them. *)
Definition parse_kw (kw : dict) : M value :=
  text ← required "text" kw;
  parse text (default (VBool false) (kw !! "include_tokens"))
    (default VNone (kw !! "interview_id"))
    (rest ["text"; "include_tokens"; "interview_id"] kw).

Definition suggest_kw (kw : dict) : M value :=
  evidence ← required "evidence" kw;
  sex ← required "sex" kw;
  age ← required "age" kw;
  suggest evidence sex age (default VNone (kw !! "extras"))
    (default (VInt 8) (kw !! "max_results"))
    (default VNone (kw !! "interview_id"))
    (rest ["evidence"; "sex"; "age"; "extras"; "max_results"; "interview_id"] kw).

Definition red_flags_kw (kw : dict) : M value :=
  evidence ← required "evidence" kw;
  sex ← required "sex" kw;
  age ← required "age" kw;
  red_flags evidence sex age (default VNone (kw !! "extras"))
    (default (VInt 8) (kw !! "max_results"))
    (default VNone (kw !! "interview_id"))
    (rest ["evidence"; "sex"; "age"; "extras"; "max_results"; "interview_id"] kw).

(** [diagnosis], [rationale] and [triage] share one signature. *)
Definition diagnostic_kw
    (method : value → value → value → value → value → dict → M value)
    (kw : dict) : M value :=
  evidence ← required "evidence" kw;
  sex ← required "sex" kw;
  age ← required "age" kw;
  method evidence sex age (default VNone (kw !! "extras"))
    (default VNone (kw !! "interview_id"))
    (rest ["evidence"; "sex"; "age"; "extras"; "interview_id"] kw).

Definition explain_kw (kw : dict) : M value :=
  target_id ← required "target_id" kw;
  diagnostic_kw (explain target_id) (delete "target_id" kw).

End methods.
End APIv2Connector.

(** ** class ModelAPIv2Connector *)

(** The session object a reference names. *)
Definition get_session (diagnosis_request : loc) : M Diagnosis := λ st,
  match sessions st !! diagnosis_request with
  | Some s => (Ok s, st)
  | None => (Raise AttributeError, st)
  end.

Definition set_session (diagnosis_request : loc) (s : Diagnosis) : M unit :=
  λ st, (Ok (), State (dicts st) (<[diagnosis_request := s]> (sessions st))
                      (calls st)).

Module ModelAPIv2Connector.
Section methods.
Context (api : API).

Definition suggest (diagnosis_request : loc) (max_results : value)
    (kwargs : dict) : M value :=
  s ← get_session diagnosis_request;
  let data := get_api_request s in
  kw ← keywords
    {[ "max_results" := max_results; "interview_id" := interview_id s ]} data;
  response ← APIv2Connector.suggest_kw api kw;
  mret response.

Definition red_flags (diagnosis_request : loc) (max_results : value)
    (kwargs : dict) : M (model api) :=
  s ← get_session diagnosis_request;
  let data := get_api_request s in
  kw ← keywords
    {[ "max_results" := max_results; "interview_id" := interview_id s ]} data;
  response ← APIv2Connector.red_flags_kw api kw;
  lift_sum (from_json api "RedFlagList" response).

Definition parse (text include_tokens interview_id : value) (kwargs : dict)
  : M (model api) :=
  kw ← keywords
    {[ "text" := text; "include_tokens" := include_tokens;
       "interview_id" := interview_id ]} kwargs;
  response ← APIv2Connector.parse_kw api kw;
  lift_sum (from_json api "ParseResults" response).

Definition diagnosis (diagnosis_request : loc) (kwargs : dict) : M loc :=
  s ← get_session diagnosis_request;
  let data := get_api_request s in
  kw ← keywords {[ "interview_id" := interview_id s ]} data;
  kw ← keywords kw kwargs;
  response ← APIv2Connector.diagnostic_kw (APIv2Connector.diagnosis api) kw;
  s ← get_session diagnosis_request;
  s' ← lift_sum (update_from_api api s response);
  set_session diagnosis_request s';;
  mret diagnosis_request.

Definition rationale (diagnosis_request : loc) (kwargs : dict)
  : M (model api) :=
  s ← get_session diagnosis_request;
  let data := get_api_request s in
  kw ← keywords {[ "interview_id" := interview_id s ]} data;
  kw ← keywords kw kwargs;
  response ← APIv2Connector.diagnostic_kw (APIv2Connector.rationale api) kw;
  lift_sum (from_json api "RationaleResult" response).

Definition explain (diagnosis_request : loc) (target_id : value)
    (kwargs : dict) : M (model api) :=
  s ← get_session diagnosis_request;
  let data := get_api_request s in
  kw ← keywords
    {[ "target_id" := target_id; "interview_id" := interview_id s ]} data;
  kw ← keywords kw kwargs;
  response ← APIv2Connector.explain_kw api kw;
  lift_sum (from_json api "ExplainResults" response).

Definition triage (diagnosis_request : loc) (kwargs : dict) : M value :=
  s ← get_session diagnosis_request;
  let data := get_api_request s in
  kw ← keywords {[ "interview_id" := interview_id s ]} data;
  kw ← keywords kw kwargs;
  response ← APIv2Connector.diagnostic_kw (APIv2Connector.triage api) kw;
  mret response.

(** The lookups without a session: one call of the parent's method, then
    the class's [from_json]. *)
Definition lookup (callee class : string) (explicit kwargs : dict)
  : M (model api) :=
  response ← mixin_call api callee explicit kwargs;
  lift_sum (from_json api class response).

Definition condition_details (condition_id : value) (kwargs : dict) :=
  lookup "condition_details" "Condition"
    {[ "condition_id" := condition_id ]} kwargs.

Definition conditions_list (kwargs : dict) :=
  lookup "conditions_list" "ConditionList" ∅ kwargs.

Definition symptom_details (symptom_id : value) (kwargs : dict) :=
  lookup "symptom_details" "Symptom" {[ "symptom_id" := symptom_id ]} kwargs.

Definition symptoms_list (kwargs : dict) :=
  lookup "symptoms_list" "SymptomList" ∅ kwargs.

Definition risk_factor_details (risk_factor_id : value) (kwargs : dict) :=
  lookup "risk_factor_details" "RiskFactor"
    {[ "risk_factor_id" := risk_factor_id ]} kwargs.

Definition risk_factors_list (kwargs : dict) :=
  lookup "risk_factors_list" "RiskFactorList" ∅ kwargs.

Definition lab_test_details (lab_test_id : value) (kwargs : dict) :=
  lookup "lab_test_details" "LabTest" {[ "lab_test_id" := lab_test_id ]} kwargs.

Definition lab_tests_list (kwargs : dict) :=
  lookup "lab_tests_list" "LabTestList" ∅ kwargs.

End methods.
End ModelAPIv2Connector.

(** ** The operations, as data *)

(** The session-bound methods of [APIv2Connector] with their own arguments;
    the interview id and the keyword arguments are common to all. *)
Inductive session_op :=
  | Parse (text include_tokens : value)
  | Suggest (evidence sex age extras max_results : value)
  | RedFlags (evidence sex age extras max_results : value)
  | DiagnosisOp (evidence sex age extras : value)
  | Rationale (evidence sex age extras : value)
  | Explain (target_id evidence sex age extras : value)
  | Triage (evidence sex age extras : value).

Definition run_session_op (api : API) (o : session_op)
    (interview_id : value) (kwargs : dict) : M value :=
  match o with
  | Parse text include_tokens =>
      APIv2Connector.parse api text include_tokens interview_id kwargs
  | Suggest evidence sex age extras max_results =>
      APIv2Connector.suggest api evidence sex age extras max_results
        interview_id kwargs
  | RedFlags evidence sex age extras max_results =>
      APIv2Connector.red_flags api evidence sex age extras max_results
        interview_id kwargs
  | DiagnosisOp evidence sex age extras =>
      APIv2Connector.diagnosis api evidence sex age extras interview_id kwargs
  | Rationale evidence sex age extras =>
      APIv2Connector.rationale api evidence sex age extras interview_id kwargs
  | Explain target_id evidence sex age extras =>
      APIv2Connector.explain api target_id evidence sex age extras
        interview_id kwargs
  | Triage evidence sex age extras =>
      APIv2Connector.triage api evidence sex age extras interview_id kwargs
  end.

(** All the methods of the three classes, as data. *)
Inductive lookup_op :=
  | ConditionDetails (condition_id : value)
  | ConditionsList
  | SymptomDetails (symptom_id : value)
  | SymptomsList
  | RiskFactorDetails (risk_factor_id : value)
  | RiskFactorsList
  | LabTestDetails (lab_test_id : value)
  | LabTestsList.

Inductive operation :=
  | BasicRedFlags (data params headers : value)
  | ApiSearch (phrase sex max_results : value) (types : option (list value))
      (kwargs : dict)
  | ApiSession (o : session_op) (interview_id : value) (kwargs : dict)
  | ModelSuggest (diagnosis_request : loc) (max_results : value) (kwargs : dict)
  | ModelRedFlags (diagnosis_request : loc) (max_results : value) (kwargs : dict)
  | ModelParse (text include_tokens interview_id : value) (kwargs : dict)
  | ModelDiagnosis (diagnosis_request : loc) (kwargs : dict)
  | ModelRationale (diagnosis_request : loc) (kwargs : dict)
  | ModelExplain (diagnosis_request : loc) (target_id : value) (kwargs : dict)
  | ModelTriage (diagnosis_request : loc) (kwargs : dict)
  | ModelLookup (o : lookup_op) (kwargs : dict).

(** What a method returns: JSON as it came, a typed result, or the session
    object it was given. *)
Inductive answer (api : API) :=
  | Json (v : value)
  | Typed (m : model api)
  | Session (diagnosis_request : loc).
Arguments Json {api} v.
Arguments Typed {api} m.
Arguments Session {api} diagnosis_request.

Definition run_lookup (api : API) (o : lookup_op) (kwargs : dict)
  : M (model api) :=
  match o with
  | ConditionDetails condition_id =>
      ModelAPIv2Connector.condition_details api condition_id kwargs
  | ConditionsList => ModelAPIv2Connector.conditions_list api kwargs
  | SymptomDetails symptom_id =>
      ModelAPIv2Connector.symptom_details api symptom_id kwargs
  | SymptomsList => ModelAPIv2Connector.symptoms_list api kwargs
  | RiskFactorDetails risk_factor_id =>
      ModelAPIv2Connector.risk_factor_details api risk_factor_id kwargs
  | RiskFactorsList => ModelAPIv2Connector.risk_factors_list api kwargs
  | LabTestDetails lab_test_id =>
      ModelAPIv2Connector.lab_test_details api lab_test_id kwargs
  | LabTestsList => ModelAPIv2Connector.lab_tests_list api kwargs
  end.

Definition run (api : API) (o : operation) : M (answer api) :=
  match o with
  | BasicRedFlags data params headers =>
      Json <$> BasicAPIv2Connector.red_flags api data params headers
  | ApiSearch phrase sex max_results types kwargs =>
      Json <$> APIv2Connector.search api phrase sex max_results types kwargs
  | ApiSession o interview_id kwargs =>
      Json <$> run_session_op api o interview_id kwargs
  | ModelSuggest diagnosis_request max_results kwargs =>
      Json <$> ModelAPIv2Connector.suggest api diagnosis_request max_results kwargs
  | ModelRedFlags diagnosis_request max_results kwargs =>
      Typed <$>
        ModelAPIv2Connector.red_flags api diagnosis_request max_results kwargs
  | ModelParse text include_tokens interview_id kwargs =>
      Typed <$>
        ModelAPIv2Connector.parse api text include_tokens interview_id kwargs
  | ModelDiagnosis diagnosis_request kwargs =>
      Session <$> ModelAPIv2Connector.diagnosis api diagnosis_request kwargs
  | ModelRationale diagnosis_request kwargs =>
      Typed <$> ModelAPIv2Connector.rationale api diagnosis_request kwargs
  | ModelExplain diagnosis_request target_id kwargs =>
      Typed <$>
        ModelAPIv2Connector.explain api diagnosis_request target_id kwargs
  | ModelTriage diagnosis_request kwargs =>
      Json <$> ModelAPIv2Connector.triage api diagnosis_request kwargs
  | ModelLookup o kwargs => Typed <$> run_lookup api o kwargs
  end.

(** The class whose [from_json] a method applies to the response. *)
Definition result_class (o : operation) : option string :=
  match o with
  | ModelRedFlags _ _ _ => Some "RedFlagList"
  | ModelParse _ _ _ _ => Some "ParseResults"
  | ModelRationale _ _ => Some "RationaleResult"
  | ModelExplain _ _ _ => Some "ExplainResults"
  | ModelLookup o _ =>
      Some match o with
           | ConditionDetails _ => "Condition"
           | ConditionsList => "ConditionList"
           | SymptomDetails _ => "Symptom"
           | SymptomsList => "SymptomList"
           | RiskFactorDetails _ => "RiskFactor"
           | RiskFactorsList => "RiskFactorList"
           | LabTestDetails _ => "LabTest"
           | LabTestsList => "LabTestList"
           end
  | _ => None
  end.

(** What a method does with the response of its call. *)
Definition conversion (api : API) (o : operation) (response : value)
  : M (answer api) :=
  match o with
  | ModelDiagnosis diagnosis_request _ =>
      s ← get_session diagnosis_request;
      s' ← lift_sum (update_from_api api s response);
      set_session diagnosis_request s';;
      mret (Session diagnosis_request)
  | _ =>
      match result_class o with
      | Some class => m ← lift_sum (from_json api class response); mret (Typed m)
      | None => mret (Json response)
      end
  end.

(** ** Vocabulary of the statements *)

(** An optional mapping among the keyword arguments is well-formed when it is
    left out or is a mapping. *)
Definition optional_mapping (h : heap) (kwargs : dict) (k : string) : Prop :=
  ∀ v, kwargs !! k = Some v → is_Some (mapping_of h v).

(** The caller holds the object [l] and passes it under [k] only. *)
Definition passed_only_as (kwargs : dict) (k : string) (l : loc) : Prop :=
  kwargs !! k = Some (VRef l) ∧ ∀ k', k' ≠ k → kwargs !! k' ≠ Some (VRef l).

(** An interview id that was given: a string that is not empty. *)
Definition interview_id_given (v : value) : Prop :=
  ∃ i, v = VStr i ∧ i ≠ "".

(** The extras argument as an optional mapping: nothing, or the mapping it
    stands for. *)
Definition optional_extras (h : heap) (extras : value) (X : option dict) : Prop :=
  (extras = VNone ∧ X = None) ∨ (is_Some X ∧ mapping_of h extras = X).

(** What [x = kwargs.pop(k, {}); x.update(d)] leaves behind: the object that
    holds the merged mapping, and that mapping; [None] when what was passed
    under [k] has no [update]. *)
Definition popped_updated (h : heap) (passed : option value) (d : dict)
  : option (loc * dict) :=
  match passed with
  | None => Some (fresh (dom h), d ∪ ∅)
  | Some (VDict d0) => Some (fresh (dom h), d ∪ d0)
  | Some (VRef l) =>
      match h !! l with
      | Some d0 => Some (l, d ∪ d0)
      | None => None
      end
  | Some _ => None
  end.

Definition pop_update_outcome (k : string) (kwargs : dict) (d : dict)
  : M (value * dict) := λ st,
  match popped_updated (dicts st) (kwargs !! k) d with
  | Some (l, m) =>
      (Ok (VRef l, delete k kwargs), set_dicts (<[l := m]> (dicts st)) st)
  | None => (Raise AttributeError, st)
  end.

(** The first entry of the list that is not a concept type. *)
Definition first_invalid (api : API) (l : list value) : option value :=
  find (λ x, negb (has_value api x)) l.

(** An entry of [types] resolves when its value is a concept type. *)
Definition resolves (api : API) (t : value) : Prop :=
  has_value api (get_value api t) = true.

(** The store that [search] leaves when it stops at an invalid filter: the
    caller's [params] with phrase and max_results set, and sex if given. *)
Definition search_params (h : heap) (l : loc) (p0 : dict)
    (phrase sex max_results : value) : dict :=
  let p1 := {[ "phrase" := phrase; "max_results" := max_results ]} ∪ p0 in
  if truthy (<[l := p1]> h) sex then <["sex" := sex]> p1 else p1.

(** [diagnosis], [rationale], [explain] and [triage] differ in the callee
    and in what they add to the data. *)
Definition diagnostic_outcome (api : API) (callee : string) (extend : dict → dict)
    (ev sex age ex iid : value) (kwargs : dict) : M value := λ st,
  match popped_updated (dicts st) (kwargs !! "headers")
          (get_interview_id_headers api iid) with
  | None => (Raise AttributeError, st)
  | Some (lh, mh) =>
      let h1 := <[lh := mh]> (dicts st) in
      mixin_call api callee
        {[ "data" := VDict
             (extend (APIv2Connector.get_diagnostic_data_dict h1 ev sex age ex));
           "headers" := VRef lh ]}
        (delete "headers" kwargs) (set_dicts h1 st)
  end.

(** The body of the spec's example of an explain request. *)
Definition example_evidence : value :=
  VList [VDict {[ "id" := VStr "s_1"; "choice_id" := VStr "present" ]}].

Definition example_explain_body : dict :=
  {[ "sex" := VStr "male"; "age" := VInt 42;
     "evidence" := example_evidence; "target" := VStr "c_1" ]}.

(** A computation that makes no call and leaves the session objects alone. *)
Definition silent {A} (m : M A) : Prop :=
  ∀ st, calls (m st).2 = calls st ∧ sessions (m st).2 = sessions st.

(** The outcome [res] of a method started in [st] that calls the transport at
    most once: either it raised before any call, or it made one call and then
    raised what the transport raised, or went on with [k] on the response. *)
Definition once_at {A} (api : API) (k : value → M A) (st : state)
    (res : result A * state) : Prop :=
  (∃ e, res.1 = Raise e ∧ calls res.2 = calls st) ∨
  (∃ c st1,
     calls st1 = calls st ++ [(c, dicts st1)] ∧
     sessions st1 = sessions st ∧
     res = match transport api c (dicts st1) with
           | inl e => (Raise e, st1)
           | inr v => k v st1
           end).

Definition calls_once {A} (api : API) (m : M A) (k : value → M A) : Prop :=
  ∀ st, once_at api k st (m st).

(** The caller repeats none of the keywords that the method on session
    objects passes down itself. *)
Definition new_keywords (kwargs : dict) : Prop :=
  ∀ k, k ∈ ["interview_id"; "sex"; "age"; "evidence"; "extras"; "data"] →
       kwargs !! k = None.

(** ** An instance for examples

    Collaborators to run the methods on closed inputs: a transport that gives
    every call the same answer or the same exception, three concept types,
    and conversions that accept any JSON but [None]. *)

Definition concept_types : list (string * string) :=
  [("SYMPTOM", "symptom"); ("RISK_FACTOR", "risk_factor");
   ("LAB_TEST", "lab_test")].

Definition example_get_value (v : value) : value :=
  match v with
  | VEnum member =>
      match list_find (λ p, bool_decide (p.1 = member)) concept_types with
      | Some (_, p) => VStr p.2
      | None => v
      end
  | _ => v
  end.

Definition example_has_value (v : value) : bool :=
  match v with
  | VStr s => bool_decide (s ∈ concept_types.*2)
  | _ => false
  end.

Definition example_update_from_api (s : Diagnosis) (response : value)
  : exn + Diagnosis :=
  match response with
  | VDict d =>
      inr {| patient_sex := patient_sex s; patient_age := patient_age s;
             evidence := evidence s; extras := extras s;
             interview_id := interview_id s;
             conditions := default (VList []) (d !! "conditions");
             question := default VNone (d !! "question") |}
  | _ => inl MalformedResponseError
  end.

Definition example_from_json (class : string) (response : value)
  : exn + value :=
  match response with
  | VNone => inl MalformedResponseError
  | _ => inr response
  end.

Definition example_api (t : call → heap → exn + value) : API := {|
  transport := t;
  get_method := VStr;
  interview_id_header := "Interview-Id";
  get_value := example_get_value;
  has_value := example_has_value;
  update_from_api := example_update_from_api;
  model := value;
  from_json := example_from_json;
|}.

Definition answers (v : value) : call → heap → exn + value := λ _ _, inr v.
Definition fails (e : exn) : call → heap → exn + value := λ _ _, inl e.

(** A caller that holds one dictionary, at location 1, and one session
    object, at location 1 of the sessions. *)
Definition example_session : Diagnosis := {|
  patient_sex := VStr "male"; patient_age := VInt 42;
  evidence := example_evidence; extras := VDict ∅;
  interview_id := VStr "abc123";
  conditions := VList []; question := VNone |}.

Definition caller_state (d : dict) : state :=
  State {[ 1%positive := d ]} {[ 1%positive := example_session ]} [].

Definition traced_headers : dict := {[ "X-Trace" := VStr "t1" ]}.

(** The last call a state records. *)
Definition last_call (st : state) : call * heap :=
  default (Call "" ∅, ∅) (last (calls st)).

(** Inputs of the examples: a search and a session-bound call by a caller
    who passes the dictionary it holds. *)
Definition search_kwargs : dict := {[ "params" := VRef 1%positive ]}.
Definition search_state : state := caller_state {[ "max_results" := VInt 100 ]}.
Definition headers_kwargs : dict := {[ "headers" := VRef 1%positive ]}.
Definition suggest_example : session_op :=
  Suggest example_evidence (VStr "male") (VInt 42) VNone (VInt 8).

(** The caller's entries win the merge, for the params of [search]: an entry
    of the caller's mapping reaches the transport with the caller's value. *)
Definition caller_params_win (api : API) : Prop :=
  ∀ phrase sex max_results types kwargs st l p0 c hc k v,
    kwargs !! "params" = Some (VRef l) →
    dicts st !! l = Some p0 →
    p0 !! k = Some v →
    calls (APIv2Connector.search api phrase sex max_results types kwargs st).2
      = calls st ++ [(c, hc)] →
    ∃ sent, hc !! l = Some sent ∧ sent !! k = Some v.

(** ** Vocabulary of the further properties *)

(** The mapping [p0] that the caller passed under a keyword: the one the
    value stands for, or the empty one when the keyword is left out. *)
Definition mapping_passed (h : heap) (passed : option value) (p0 : dict) : Prop :=
  match passed with
  | None => p0 = ∅
  | Some v => mapping_of h v = Some p0
  end.

(** What the transport answered, as the result of a method. *)
Definition answered {A} (r : exn + A) : result A :=
  match r with
  | inr a => Ok a
  | inl e => Raise e
  end.

(** The session-bound methods that pass the rest of their keyword arguments
    on to the parent's method. *)
Definition forwards (o : session_op) : bool :=
  match o with
  | DiagnosisOp _ _ _ _ | Rationale _ _ _ _ | Explain _ _ _ _ _
  | Triage _ _ _ _ => true
  | _ => false
  end.

(** The diagnostic payload of a session-bound method's arguments, in the
    store [h]; [parse] has none. *)
Definition session_payload (h : heap) (o : session_op) : option dict :=
  match o with
  | Parse _ _ => None
  | Suggest ev sex age ex _ | RedFlags ev sex age ex _
  | DiagnosisOp ev sex age ex | Rationale ev sex age ex
  | Triage ev sex age ex =>
      Some (APIv2Connector.get_diagnostic_data_dict h ev sex age ex)
  | Explain target_id ev sex age ex =>
      Some (<["target" := target_id]>
              (APIv2Connector.get_diagnostic_data_dict h ev sex age ex))
  end.


(** The session objects other than that at [r] are the same. *)
Definition same_but (r : loc) : relation (gmap loc Diagnosis) :=
  λ s s', ∀ r', r' ≠ r → s' !! r' = s !! r'.

(** Inputs of the further examples. *)
Definition filters_example : list value := [VEnum "SYMPTOM"; VStr "lab_test"].
Definition triage_example : session_op :=
  Triage example_evidence (VStr "male") (VInt 42) VNone.
Definition data_kwargs : dict := {[ "data" := VDict ∅ ]}.
Definition interview_id_kwargs : dict := {[ "interview_id" := VStr "other" ]}.

(** A caller whose params collide with what [search] derives, and hold an
    entry that [search] does not set. *)
Definition colliding_params : dict :=
  {[ "max_results" := VInt 100; "sex" := VStr "male"; "type" := VStr "x";
     "page" := VInt 2 ]}.
Definition colliding_state : state := caller_state colliding_params.




(** A caller that holds two dictionaries, and a session object whose extras
    are the first of them. *)
Definition linked_session : Diagnosis := {|
  patient_sex := VStr "male"; patient_age := VInt 42;
  evidence := example_evidence; extras := VRef 1%positive;
  interview_id := VStr "abc123";
  conditions := VList []; question := VNone |}.

Definition linked_state : state :=
  State {[ 1%positive := {[ "note" := VStr "x" ]};
           2%positive := traced_headers ]}
        {[ 1%positive := linked_session ]} [].

Definition extras_as_headers_kwargs : dict := {[ "headers" := VRef 1%positive ]}.

(** * Proofs *)

(** ** Running the methods *)

Lemma run_pop_update {A} k kwargs d (rest : value → dict → M A) st :
  (kwargs_pop_dict k kwargs ≫= λ '(v, kw), dict_update v d ≫= λ _, rest v kw) st
  = (pop_update_outcome k kwargs d ≫= λ '(v, kw), rest v kw) st.
Proof.
  unfold kwargs_pop_dict, pop_update_outcome, popped_updated, mbind, M_bind.
  destruct (kwargs !! k) as [[]|] eqn:Hk; simpl; try reflexivity.
  - rewrite lookup_insert_eq. unfold set_dicts; simpl.
    rewrite insert_insert_eq. reflexivity.
  - destruct (dicts st !! l); reflexivity.
  - rewrite lookup_insert_eq. rewrite (delete_id _ _ Hk). unfold set_dicts; simpl.
    rewrite insert_insert_eq. reflexivity.
Qed.

Lemma run_bind_pop_update {A} k kwargs d (f : value * dict → M A) st :
  (pop_update_outcome k kwargs d ≫= f) st =
  match popped_updated (dicts st) (kwargs !! k) d with
  | Some (l, m) =>
      f (VRef l, delete k kwargs) (set_dicts (<[l := m]> (dicts st)) st)
  | None => (Raise AttributeError, st)
  end.
Proof.
  unfold mbind, M_bind, pop_update_outcome.
  destruct (popped_updated _ _ _) as [[l m]|]; reflexivity.
Qed.

Lemma run_mixin_call api callee explicit kwargs st :
  mixin_call api callee explicit kwargs st =
  if bool_decide (explicit ##ₘ kwargs)
  then invoke api (Call callee (explicit ∪ kwargs)) st
  else (Raise TypeError, st).
Proof.
  unfold mixin_call, keywords, mbind, M_bind.
  case_bool_decide; reflexivity.
Qed.

Lemma run_mixin_call_empty api callee explicit st :
  mixin_call api callee explicit ∅ st = invoke api (Call callee explicit) st.
Proof.
  rewrite run_mixin_call.
  case_bool_decide as Hd; [|destruct Hd; apply map_disjoint_empty_r].
  by rewrite (right_id_L ∅ (∪)).
Qed.

Lemma run_check_concept_types api l st :
  APIv2Connector.check_concept_types api l st =
  match first_invalid api l with
  | Some bad => (Raise (InvalidSearchConceptType bad), st)
  | None => (Ok (), st)
  end.
Proof.
  induction l as [|x l IH]; simpl; [reflexivity|].
  unfold first_invalid in *; simpl.
  destruct (has_value api x); simpl; [apply IH | reflexivity].
Qed.

Section runs.
Context (api : API).

Lemma suggest_run ev sex age ex mr iid kwargs st :
  APIv2Connector.suggest api ev sex age ex mr iid kwargs st =
  match popped_updated (dicts st) (kwargs !! "params")
          {[ "max_results" := mr ]} with
  | None => (Raise AttributeError, st)
  | Some (lp, mp) =>
      let h1 := <[lp := mp]> (dicts st) in
      match popped_updated h1 (kwargs !! "headers")
              (get_interview_id_headers api iid) with
      | None => (Raise AttributeError, set_dicts h1 st)
      | Some (lh, mh) =>
          let h2 := <[lh := mh]> h1 in
          invoke api (Call "suggest"
            {[ "data" := VDict
                 (APIv2Connector.get_diagnostic_data_dict h2 ev sex age ex);
               "params" := VRef lp; "headers" := VRef lh ]})
            (set_dicts h2 st)
      end
  end.
Proof.
  unfold APIv2Connector.suggest.
  rewrite run_pop_update, run_bind_pop_update.
  destruct (popped_updated _ _ _) as [[lp mp]|]; [|reflexivity].
  rewrite run_pop_update, run_bind_pop_update. simpl.
  rewrite lookup_delete_ne by done.
  destruct (popped_updated _ _ _) as [[lh mh]|]; [|reflexivity].
  unfold mbind, M_bind, get_dicts. simpl.
  by rewrite run_mixin_call_empty.
Qed.

Lemma red_flags_run ev sex age ex mr iid kwargs st :
  APIv2Connector.red_flags api ev sex age ex mr iid kwargs st =
  match popped_updated (dicts st) (kwargs !! "params")
          {[ "max_results" := mr ]} with
  | None => (Raise AttributeError, st)
  | Some (lp, mp) =>
      let h1 := <[lp := mp]> (dicts st) in
      match popped_updated h1 (kwargs !! "headers")
              (get_interview_id_headers api iid) with
      | None => (Raise AttributeError, set_dicts h1 st)
      | Some (lh, mh) =>
          let h2 := <[lh := mh]> h1 in
          invoke api (Call "call_api_post"
            {[ "method" := get_method api "red_flags";
               "data" := VDict
                 (APIv2Connector.get_diagnostic_data_dict h2 ev sex age ex);
               "params" := VRef lp; "headers" := VRef lh ]})
            (set_dicts h2 st)
      end
  end.
Proof.
  unfold APIv2Connector.red_flags.
  rewrite run_pop_update, run_bind_pop_update.
  destruct (popped_updated _ _ _) as [[lp mp]|]; [|reflexivity].
  rewrite run_pop_update, run_bind_pop_update. simpl.
  rewrite lookup_delete_ne by done.
  destruct (popped_updated _ _ _) as [[lh mh]|]; reflexivity.
Qed.

Lemma parse_run text include_tokens iid kwargs st :
  APIv2Connector.parse api text include_tokens iid kwargs st =
  match popped_updated (dicts st) (kwargs !! "headers")
          (get_interview_id_headers api iid) with
  | None => (Raise AttributeError, st)
  | Some (lh, mh) =>
      let h1 := <[lh := mh]> (dicts st) in
      match popped_updated h1 (kwargs !! "data")
              {[ "text" := text; "include_tokens" := include_tokens ]} with
      | None => (Raise AttributeError, set_dicts h1 st)
      | Some (ld, md) =>
          let h2 := <[ld := md]> h1 in
          invoke api (Call "parse"
            {[ "data" := VRef ld;
               "params" := default VNone (kwargs !! "params");
               "headers" := VRef lh ]})
            (set_dicts h2 st)
      end
  end.
Proof.
  unfold APIv2Connector.parse, kwargs_pop.
  rewrite run_pop_update, run_bind_pop_update.
  rewrite lookup_delete_ne by done.
  destruct (popped_updated _ _ _) as [[lh mh]|]; [|reflexivity].
  rewrite run_pop_update, run_bind_pop_update. simpl.
  rewrite !lookup_delete_ne by done.
  destruct (popped_updated _ _ _) as [[ld md]|]; [|reflexivity].
  by rewrite run_mixin_call_empty.
Qed.

Lemma diagnosis_run ev sex age ex iid kwargs st :
  APIv2Connector.diagnosis api ev sex age ex iid kwargs st =
  diagnostic_outcome api "diagnosis" id ev sex age ex iid kwargs st.
Proof.
  unfold APIv2Connector.diagnosis, diagnostic_outcome.
  rewrite run_pop_update, run_bind_pop_update.
  destruct (popped_updated _ _ _) as [[lh mh]|]; reflexivity.
Qed.

Lemma rationale_run ev sex age ex iid kwargs st :
  APIv2Connector.rationale api ev sex age ex iid kwargs st =
  diagnostic_outcome api "rationale" id ev sex age ex iid kwargs st.
Proof.
  unfold APIv2Connector.rationale, diagnostic_outcome.
  rewrite run_pop_update, run_bind_pop_update.
  destruct (popped_updated _ _ _) as [[lh mh]|]; reflexivity.
Qed.

Lemma triage_run ev sex age ex iid kwargs st :
  APIv2Connector.triage api ev sex age ex iid kwargs st =
  diagnostic_outcome api "triage" id ev sex age ex iid kwargs st.
Proof.
  unfold APIv2Connector.triage, diagnostic_outcome.
  rewrite run_pop_update, run_bind_pop_update.
  destruct (popped_updated _ _ _) as [[lh mh]|]; reflexivity.
Qed.

Lemma explain_run target_id ev sex age ex iid kwargs st :
  APIv2Connector.explain api target_id ev sex age ex iid kwargs st =
  diagnostic_outcome api "explain" (insert "target" target_id)
    ev sex age ex iid kwargs st.
Proof.
  unfold APIv2Connector.explain, diagnostic_outcome.
  rewrite run_pop_update, run_bind_pop_update.
  destruct (popped_updated _ _ _) as [[lh mh]|]; reflexivity.
Qed.

Lemma search_run phrase sex mr types kwargs st :
  APIv2Connector.search api phrase sex mr types kwargs st =
  match popped_updated (dicts st) (kwargs !! "params")
          {[ "phrase" := phrase; "max_results" := mr ]} with
  | None => (Raise AttributeError, st)
  | Some (lp, mp) =>
      let h1 := <[lp := mp]> (dicts st) in
      let mp2 := if truthy h1 sex then <["sex" := sex]> mp else mp in
      let call_with m :=
        mixin_call api "search" {[ "params" := VRef lp ]}
          (delete "params" kwargs)
          (set_dicts (<[lp := m]> (dicts st)) st) in
      match types with
      | Some (t :: ts) =>
          let types_as_str_list := get_value api <$> t :: ts in
          match first_invalid api types_as_str_list with
          | Some bad =>
              (Raise (InvalidSearchConceptType bad),
               set_dicts (<[lp := mp2]> (dicts st)) st)
          | None => call_with (<["type" := VList types_as_str_list]> mp2)
          end
      | _ => call_with mp2
      end
  end.
Proof.
  unfold APIv2Connector.search.
  rewrite run_pop_update, run_bind_pop_update.
  destruct (popped_updated _ _ _) as [[lp mp]|]; [|reflexivity].
  cbv zeta.
  unfold mbind at 1, M_bind at 1, truth at 1. cbv beta iota.
  unfold set_dicts at 1; cbn [dicts].
  set (h1 := <[lp := mp]> (dicts st)).
  assert (Hsex : ∀ {A} (f : () → M A),
    ((if truthy h1 sex then dict_setitem (VRef lp) "sex" sex else mret ())
       ≫= f) (set_dicts h1 st) =
    f () (set_dicts
            (<[lp := if truthy h1 sex then <["sex" := sex]> mp else mp]>
               (dicts st)) st)).
  { intros A f. unfold mbind, M_bind.
    destruct (truthy h1 sex); [|reflexivity].
    unfold dict_setitem; cbn. unfold h1. rewrite lookup_insert_eq.
    unfold set_dicts; cbn. by rewrite insert_insert_eq. }
  rewrite Hsex. clear Hsex.
  destruct types as [[|t ts]|]; try reflexivity.
  generalize (get_value api <$> t :: ts); intros strs.
  unfold mbind at 1, M_bind at 1.
  unfold mbind at 1, M_bind at 1.
  rewrite run_check_concept_types.
  destruct (first_invalid api strs); [reflexivity|].
  unfold dict_setitem; cbn. rewrite lookup_insert_eq.
  unfold set_dicts; cbn. by rewrite insert_insert_eq.
Qed.

End runs.

(** ** The store after a merge *)

Lemma popped_updated_ref h l d0 d :
  h !! l = Some d0 → popped_updated h (Some (VRef l)) d = Some (l, d ∪ d0).
Proof. intros Hl. simpl. by rewrite Hl. Qed.

Lemma fresh_not_allocated (h : heap) l d0 :
  h !! l = Some d0 → fresh (dom h) ≠ l.
Proof.
  intros Hl <-. assert (Hin : fresh (dom h) ∈ dom h) by (apply elem_of_dom; eauto).
  by apply is_fresh in Hin.
Qed.

(** A merge into what was passed touches no other object. *)
Lemma popped_updated_other h passed d l' m l d0 :
  popped_updated h passed d = Some (l', m) →
  h !! l = Some d0 →
  passed ≠ Some (VRef l) →
  l' ≠ l.
Proof.
  intros Hpu Hl Hne. destruct passed as [[]|]; simplify_eq/=;
    eauto using fresh_not_allocated.
  destruct (h !! _) eqn:?; simplify_eq. congruence.
Qed.

(** A merge succeeds on an optional mapping. *)
Lemma popped_updated_mapping h passed d :
  (∀ v, passed = Some v → is_Some (mapping_of h v)) →
  is_Some (popped_updated h passed d).
Proof.
  intros Hm. destruct passed as [v|]; [|by eexists].
  destruct (Hm v eq_refl) as [d0 Hd0].
  destruct v; simplify_eq/=; [by eexists|]. rewrite Hd0. by eexists.
Qed.

Lemma invoke_calls api c st :
  calls (invoke api c st).2 = calls st ++ [(c, dicts st)] ∧
  dicts (invoke api c st).2 = dicts st.
Proof. unfold invoke. by destruct (transport api c (dicts st)). Qed.

Lemma mixin_call_calls api callee explicit kwargs st :
  (calls (mixin_call api callee explicit kwargs st).2 = calls st ∧
   (mixin_call api callee explicit kwargs st).1 = Raise TypeError) ∨
  (calls (mixin_call api callee explicit kwargs st).2 =
     calls st ++ [(Call callee (explicit ∪ kwargs), dicts st)] ∧
   explicit ##ₘ kwargs).
Proof.
  rewrite run_mixin_call. case_bool_decide; [right|left; done].
  split; [apply invoke_calls | done].
Qed.

Lemma mixin_call_dicts api callee explicit kwargs st :
  dicts (mixin_call api callee explicit kwargs st).2 = dicts st.
Proof.
  rewrite run_mixin_call. case_bool_decide; [apply invoke_calls | done].
Qed.

Lemma app_singleton_neq {A} (l : list A) x : l ++ [x] ≠ l.
Proof.
  intros H. apply (f_equal length) in H. rewrite length_app in H. simpl in H. lia.
Qed.

Lemma app_singleton_inj {A} (l : list A) x y : l ++ [x] = l ++ [y] → x = y.
Proof. intros H. apply app_inv_head in H. congruence. Qed.

(** ** The diagnostic payload *)

(** C1. The payload of [get_diagnostic_data_dict] has the keys sex, age and
    evidence with the values given (whatever the evidence list), an extras
    key holding the extras exactly when a non-empty extras mapping is
    supplied, and no other key. *)
Theorem diagnostic_data_dict_keys h E sex age extras X :
  optional_extras h extras X →
  let data := APIv2Connector.get_diagnostic_data_dict h E sex age extras in
  data !! "sex" = Some sex ∧
  data !! "age" = Some age ∧
  data !! "evidence" = Some E ∧
  (data !! "extras" = Some extras ↔ ∃ d, X = Some d ∧ d ≠ ∅) ∧
  (data !! "extras" = None ↔ X = None ∨ X = Some ∅) ∧
  dom data = {[ "sex"; "age"; "evidence" ]} ∪
             (if data !! "extras" is Some _ then {[ "extras" ]} else ∅).
Proof.
  intros HX data. subst data. unfold APIv2Connector.get_diagnostic_data_dict.
  assert (Ht : truthy h extras = true ↔ ∃ d, X = Some d ∧ d ≠ ∅).
  { destruct HX as [[-> ->]|[[d ->] Hm]].
    - simpl. split; [done | by intros (? & ? & _)].
    - destruct extras; simplify_eq/=.
      + rewrite negb_true_iff, bool_decide_eq_false.
        split; [eauto | by intros (? & [= <-] & ?)].
      + rewrite Hm, negb_true_iff, bool_decide_eq_false.
        split; [eauto | by intros (? & [= <-] & ?)]. }
  cbv zeta. destruct (truthy h extras) eqn:Hte.
  - destruct (proj1 Ht eq_refl) as (d & -> & Hd).
    rewrite !dom_insert_L, dom_singleton_L. simplify_map_eq.
    split_and!; try done.
    + split; [eauto | done].
    + split; [done | intros [|[= Hd']]; [done | by destruct Hd]].
  - assert (Hn : X = None ∨ X = Some ∅).
    { destruct X as [d|]; [|by left]. right. f_equal.
      destruct (decide (d = ∅)) as [|Hd]; [done|].
      assert (false = true) by (apply Ht; eauto). done. }
    rewrite !dom_insert_L, dom_singleton_L. simplify_map_eq.
    split_and!; try done.
    split; [done | intros Hex; apply Ht in Hex; done].
Qed.

(** ** Search and its filter validation *)

Section search.
Context (api : API).

Lemma first_invalid_app pre t post :
  Forall (resolves api) pre → ¬ resolves api t →
  first_invalid api (get_value api <$> pre ++ t :: post)
  = Some (get_value api t).
Proof.
  unfold resolves, first_invalid. intros Hpre Ht.
  induction Hpre as [|x pre Hx _ IH]; simpl.
  - by destruct (has_value api (get_value api t)).
  - by rewrite Hx.
Qed.

(** C2. A search whose [types] hold an entry that does not resolve to a
    concept type raises [InvalidSearchConceptType] with the first such
    entry's value; nothing is called and nothing is returned. *)
Theorem search_invalid_concept_type
    phrase sex max_results pre t post kwargs st :
  Forall (resolves api) pre →
  ¬ resolves api t →
  optional_mapping (dicts st) kwargs "params" →
  ∃ st',
    APIv2Connector.search api phrase sex max_results
      (Some (pre ++ t :: post)) kwargs st
    = (Raise (InvalidSearchConceptType (get_value api t)), st') ∧
    calls st' = calls st.
Proof.
  intros Hpre Ht Hp. rewrite search_run.
  destruct (popped_updated_mapping (dicts st) (kwargs !! "params")
    {[ "phrase" := phrase; "max_results" := max_results ]} Hp)
    as [[lp mp] ->].
  cbv zeta.
  destruct (pre ++ t :: post) as [|t0 ts] eqn:Hl; [by destruct pre|].
  rewrite <- Hl, (first_invalid_app _ _ _ Hpre Ht). by eexists.
Qed.

(** C9. When [search] raises [InvalidSearchConceptType] itself (no call was
    made), the mapping the caller passed as [params] has been updated in
    place: it holds phrase and max_results, and sex when given; its entry
    under [type], if any, is the caller's own. *)
Theorem search_error_mutates_params
    phrase sex max_results types kwargs st l p0 bad st' :
  kwargs !! "params" = Some (VRef l) →
  dicts st !! l = Some p0 →
  APIv2Connector.search api phrase sex max_results types kwargs st
    = (Raise (InvalidSearchConceptType bad), st') →
  calls st' = calls st →
  let p := search_params (dicts st) l p0 phrase sex max_results in
  dicts st' = <[l := p]> (dicts st) ∧
  p !! "phrase" = Some phrase ∧
  p !! "max_results" = Some max_results ∧
  (truthy (<[l := {[ "phrase" := phrase; "max_results" := max_results ]}
                    ∪ p0]> (dicts st)) sex = true →
   p !! "sex" = Some sex) ∧
  p !! "type" = p0 !! "type".
Proof.
  intros Hk Hl Hrun Hcalls p. rewrite search_run, Hk in Hrun.
  rewrite (popped_updated_ref _ _ _ _ Hl) in Hrun. cbv zeta in Hrun.
  assert (Hcall : ∀ m,
    mixin_call api "search" {[ "params" := VRef l ]} (delete "params" kwargs)
      (set_dicts (<[l := m]> (dicts st)) st)
    = (Raise (InvalidSearchConceptType bad), st') → False).
  { intros m Hm.
    destruct (mixin_call_calls api "search" {[ "params" := VRef l ]}
      (delete "params" kwargs) (set_dicts (<[l := m]> (dicts st)) st))
      as [[_ He]|[Hc _]]; rewrite Hm in *; simpl in *; [done|].
    rewrite Hcalls in Hc. by apply eq_sym, app_singleton_neq in Hc. }
  assert (Hst : st' = set_dicts (<[l := p]> (dicts st)) st).
  { destruct types as [[|t ts]|]; try (by apply Hcall in Hrun).
    destruct (first_invalid _ _); [|by apply Hcall in Hrun].
    by simplify_eq. }
  subst st' p. unfold search_params. cbv zeta.
  split; [done|].
  destruct (truthy _ sex); simplify_map_eq; rewrite ?lookup_union_r by
    (by simplify_map_eq); done.
Qed.

End search.

(** ** The session-bound methods and the interview-id header *)

Section session.
Context (api : API).

Lemma diagnostic_outcome_headers callee extend ev sex age ex iid kwargs st l hd :
  kwargs !! "headers" = Some (VRef l) →
  dicts st !! l = Some hd →
  let res := diagnostic_outcome api callee extend ev sex age ex iid kwargs st in
  let sent := get_interview_id_headers api iid ∪ hd in
  dicts res.2 = <[l := sent]> (dicts st) ∧
  ∀ c hc, calls res.2 = calls st ++ [(c, hc)] →
    hc = <[l := sent]> (dicts st) ∧
    c_kwargs c !! "headers" = Some (VRef l) ∧
    c_kwargs c !! "data" = Some (VDict (extend
      (APIv2Connector.get_diagnostic_data_dict hc ev sex age ex))).
Proof.
  intros Hk Hl. unfold diagnostic_outcome.
  rewrite Hk, (popped_updated_ref _ _ _ _ Hl). cbv zeta.
  split; [by rewrite mixin_call_dicts|].
  intros c hc Hc.
  match goal with H : context [mixin_call ?a ?b ?e ?k ?s] |- _ =>
    destruct (mixin_call_calls a b e k s) as [[Hn _]|[Hy Hdisj]] end.
  { rewrite Hn in Hc. simpl in Hc. by apply eq_sym, app_singleton_neq in Hc. }
  rewrite Hy in Hc. simpl in Hc. apply app_singleton_inj in Hc.
  injection Hc as <- <-. simpl. split; [done|].
  split; apply lookup_union_Some_l; by simplify_map_eq.
Qed.

(** What every session-bound method does with the caller's headers. *)
Lemma session_op_headers o iid kwargs st l hd :
  passed_only_as kwargs "headers" l →
  dicts st !! l = Some hd →
  let res := run_session_op api o iid kwargs st in
  let sent := get_interview_id_headers api iid ∪ hd in
  (optional_mapping (dicts st) kwargs "params" →
   dicts res.2 !! l = Some sent) ∧
  ∀ c hc, calls res.2 = calls st ++ [(c, hc)] →
    c_kwargs c !! "headers" = Some (VRef l) ∧ hc !! l = Some sent.
Proof.
  intros [Hk Hother] Hl.
  assert (Hdiag : ∀ callee extend ev sex age ex,
    let res := diagnostic_outcome api callee extend ev sex age ex iid kwargs st in
    let sent := get_interview_id_headers api iid ∪ hd in
    (optional_mapping (dicts st) kwargs "params" →
     dicts res.2 !! l = Some sent) ∧
    ∀ c hc, calls res.2 = calls st ++ [(c, hc)] →
      c_kwargs c !! "headers" = Some (VRef l) ∧ hc !! l = Some sent).
  { intros callee extend ev sex age ex.
    destruct (diagnostic_outcome_headers callee extend ev sex age ex iid
      kwargs st l hd Hk Hl) as [Hd Hc].
    split.
    - intros _. rewrite Hd. by simplify_map_eq.
    - intros c hc Hcalls. destruct (Hc c hc Hcalls) as (-> & ? & _).
      by simplify_map_eq. }
  assert (Hparams : ∀ d,
    match popped_updated (dicts st) (kwargs !! "params") d with
    | Some (lp, mp) =>
        popped_updated (<[lp := mp]> (dicts st)) (kwargs !! "headers")
          (get_interview_id_headers api iid)
        = Some (l, get_interview_id_headers api iid ∪ hd)
    | None => ¬ optional_mapping (dicts st) kwargs "params"
    end).
  { intros d. destruct (popped_updated _ _ d) as [[lp mp]|] eqn:Hpu.
    - rewrite Hk. apply popped_updated_ref. rewrite lookup_insert_ne; [done|].
      eapply popped_updated_other; [done..|]. by apply Hother.
    - intros Hm. eapply popped_updated_mapping in Hm. rewrite Hpu in Hm.
      by destruct Hm. }
  destruct o; simpl; try rewrite diagnosis_run; try rewrite rationale_run;
    try rewrite explain_run; try rewrite triage_run; try apply Hdiag.
  - (* parse *)
    rewrite parse_run, Hk, (popped_updated_ref _ _ _ _ Hl). cbv zeta.
    destruct (popped_updated _ (kwargs !! "data") _) as [[ld md]|] eqn:Hpu.
    + assert (ld ≠ l).
      { eapply popped_updated_other; [done|by simplify_map_eq|].
        by apply Hother. }
      split.
      * intros _. rewrite (proj2 (invoke_calls _ _ _)). by simplify_map_eq.
      * intros c hc Hc. rewrite (proj1 (invoke_calls _ _ _)) in Hc.
        apply app_singleton_inj in Hc. injection Hc as <- <-.
        by simplify_map_eq.
    + split; [intros _; by simplify_map_eq|].
      intros c hc Hc. by apply eq_sym, app_singleton_neq in Hc.
  - (* suggest *)
    rewrite suggest_run. specialize (Hparams {[ "max_results" := max_results ]}).
    destruct (popped_updated _ (kwargs !! "params") _) as [[lp mp]|].
    + cbv zeta. rewrite Hparams. split.
      * intros _. rewrite (proj2 (invoke_calls _ _ _)). by simplify_map_eq.
      * intros c hc Hc. rewrite (proj1 (invoke_calls _ _ _)) in Hc.
        apply app_singleton_inj in Hc. injection Hc as <- <-.
        by simplify_map_eq.
    + split; [done|]. intros c hc Hc. by apply eq_sym, app_singleton_neq in Hc.
  - (* red_flags *)
    rewrite red_flags_run. specialize (Hparams {[ "max_results" := max_results ]}).
    destruct (popped_updated _ (kwargs !! "params") _) as [[lp mp]|].
    + cbv zeta. rewrite Hparams. split.
      * intros _. rewrite (proj2 (invoke_calls _ _ _)). by simplify_map_eq.
      * intros c hc Hc. rewrite (proj1 (invoke_calls _ _ _)) in Hc.
        apply app_singleton_inj in Hc. injection Hc as <- <-.
        by simplify_map_eq.
    + split; [done|]. intros c hc Hc. by apply eq_sym, app_singleton_neq in Hc.
Qed.

End session.

Section session_claims.
Context (api : API).

Lemma interview_id_headers_given iid (hd : dict) :
  interview_id_given iid →
  get_interview_id_headers api iid ∪ hd = <[interview_id_header api := iid]> hd.
Proof.
  intros (i & -> & _). by rewrite insert_union_singleton_l.
Qed.

(** C3. In every session-bound method called with an interview id, the
    headers that reach the transport are the caller's own mapping with the
    interview-id entry set to the session's value: the entries under the other
    keys are the caller's, and an entry the caller had under the interview-id
    key is replaced. The caller passes its mapping as [headers] only. *)
Theorem session_headers_merged o iid kwargs st l hd c hc :
  passed_only_as kwargs "headers" l →
  dicts st !! l = Some hd →
  interview_id_given iid →
  calls (run_session_op api o iid kwargs st).2 = calls st ++ [(c, hc)] →
  c_kwargs c !! "headers" = Some (VRef l) ∧
  ∃ sent,
    hc !! l = Some sent ∧
    sent = <[interview_id_header api := iid]> hd ∧
    sent !! interview_id_header api = Some iid ∧
    ∀ k, k ≠ interview_id_header api → sent !! k = hd !! k.
Proof.
  intros Hk Hl Hiid Hc.
  destruct (session_op_headers api o iid kwargs st l hd Hk Hl) as [_ H].
  destruct (H c hc Hc) as [Hh Hsent]. split; [done|].
  rewrite interview_id_headers_given in Hsent by done.
  eexists. split_and!; [done.. | by simplify_map_eq |].
  intros k Hne. by simplify_map_eq.
Qed.

(** C10. A session-bound method called with an interview id updates the
    headers mapping the caller passed, in place: whether the method returns
    or raises, the caller's mapping then holds the interview-id entry over
    its own entries. The caller passes its mapping as [headers] only, and
    [params], which [suggest] and [red_flags] merge before the headers, is
    left out or is a mapping. *)
Theorem caller_headers_mutated o iid kwargs st l hd :
  passed_only_as kwargs "headers" l →
  dicts st !! l = Some hd →
  interview_id_given iid →
  optional_mapping (dicts st) kwargs "params" →
  dicts (run_session_op api o iid kwargs st).2 !! l
  = Some (<[interview_id_header api := iid]> hd).
Proof.
  intros Hk Hl Hiid Hp.
  destruct (session_op_headers api o iid kwargs st l hd Hk Hl) as [H _].
  rewrite <- interview_id_headers_given by done. by apply H.
Qed.

Lemma diagnostic_outcome_data callee extend ev sex age ex iid kwargs st c hc :
  calls (diagnostic_outcome api callee extend ev sex age ex iid kwargs st).2
    = calls st ++ [(c, hc)] →
  c_kwargs c !! "data" = Some (VDict (extend
    (APIv2Connector.get_diagnostic_data_dict hc ev sex age ex))).
Proof.
  unfold diagnostic_outcome.
  destruct (popped_updated _ _ _) as [[lh mh]|]; simpl;
    [|by intros ?%eq_sym%app_singleton_neq].
  intros Hc.
  match goal with H : context [mixin_call ?a ?b ?e ?k ?s] |- _ =>
    destruct (mixin_call_calls a b e k s) as [[Hn _]|[Hy Hdisj]] end.
  { rewrite Hn in Hc. simpl in Hc. by apply eq_sym, app_singleton_neq in Hc. }
  rewrite Hy in Hc. simpl in Hc. apply app_singleton_inj in Hc.
  injection Hc as <- <-. simpl.
  apply lookup_union_Some_l; by simplify_map_eq.
Qed.

(** C5. The data that [explain] sends is the diagnostic payload of its
    arguments with the target condition id added under [target]; for the
    spec's example arguments the call is made with the example body. *)
Theorem explain_payload :
  (∀ target_id ev sex age ex iid kwargs st c hc,
     calls (APIv2Connector.explain api target_id ev sex age ex iid kwargs st).2
       = calls st ++ [(c, hc)] →
     c_kwargs c !! "data" = Some (VDict (<["target" := target_id]>
       (APIv2Connector.get_diagnostic_data_dict hc ev sex age ex)))) ∧
  (∀ st, ∃ c hc,
     calls (APIv2Connector.explain api (VStr "c_1") example_evidence
              (VStr "male") (VInt 42) VNone VNone ∅ st).2
       = calls st ++ [(c, hc)] ∧
     c_kwargs c !! "data" = Some (VDict example_explain_body)).
Proof.
  split.
  - intros * Hc. rewrite explain_run in Hc.
    by apply diagnostic_outcome_data in Hc.
  - intros st. rewrite explain_run. unfold diagnostic_outcome.
    rewrite lookup_empty. simpl. rewrite delete_empty, run_mixin_call_empty.
    eexists _, _. split; [rewrite (proj1 (invoke_calls _ _ _)); reflexivity|].
    simpl.
    rewrite lookup_insert_eq. reflexivity.
Qed.

End session_claims.

(** ** Which side wins a merge *)

Section merges.
Context (api : API).

Lemma search_params_sent phrase sex mr types kwargs st l p0 c hc :
  kwargs !! "params" = Some (VRef l) →
  dicts st !! l = Some p0 →
  calls (APIv2Connector.search api phrase sex mr types kwargs st).2
    = calls st ++ [(c, hc)] →
  let given :=
    truthy (<[l := {[ "phrase" := phrase; "max_results" := mr ]} ∪ p0]>
              (dicts st)) sex in
  c_kwargs c !! "params" = Some (VRef l) ∧
  ∃ sent,
    hc !! l = Some sent ∧
    sent !! "phrase" = Some phrase ∧
    sent !! "max_results" = Some mr ∧
    sent !! "sex" = (if given then Some sex else p0 !! "sex") ∧
    sent !! "type" = match types with
                     | Some ((_ :: _) as ts) =>
                         Some (VList (get_value api <$> ts))
                     | _ => p0 !! "type"
                     end ∧
    ∀ k, k ∉ ["phrase"; "max_results"; "sex"; "type"] → sent !! k = p0 !! k.
Proof.
  intros Hk Hl. rewrite search_run, Hk, (popped_updated_ref _ _ _ _ Hl).
  cbv zeta.
  set (p1 := {[ "phrase" := phrase; "max_results" := mr ]} ∪ p0).
  set (p2 := if truthy (<[l := p1]> (dicts st)) sex
             then <["sex" := sex]> p1 else p1).
  assert (H1 : ∀ k, k ≠ "phrase" → k ≠ "max_results" → p1 !! k = p0 !! k).
  { intros k ? ?. unfold p1. rewrite lookup_union_r; [done|].
    by simplify_map_eq. }
  assert (H2 : p2 !! "phrase" = Some phrase ∧ p2 !! "max_results" = Some mr ∧
    p2 !! "sex" = (if truthy (<[l := p1]> (dicts st)) sex
                   then Some sex else p0 !! "sex") ∧
    p2 !! "type" = p0 !! "type" ∧
    ∀ k, k ∉ ["phrase"; "max_results"; "sex"; "type"] → p2 !! k = p0 !! k).
  { assert (p1 !! "phrase" = Some phrase ∧ p1 !! "max_results" = Some mr)
      as [? ?] by (unfold p1; split; apply lookup_union_Some_l;
                   by simplify_map_eq).
    unfold p2. destruct (truthy _ sex); split_and!;
      rewrite ?lookup_insert_eq, ?lookup_insert_ne by done;
      try done; try by apply H1.
    all: intros k Hn;
      assert (k ≠ "phrase" ∧ k ≠ "max_results" ∧ k ≠ "sex")
        as (? & ? & ?) by (split_and!; intros ->; set_solver);
      rewrite ?lookup_insert_ne by done; by apply H1. }
  destruct H2 as (Hp & Hm & Hs & Ht & Ho).
  assert (Hcall : ∀ m,
    calls (mixin_call api "search" {[ "params" := VRef l ]}
             (delete "params" kwargs)
             (set_dicts (<[l := m]> (dicts st)) st)).2
      = calls st ++ [(c, hc)] →
    c_kwargs c !! "params" = Some (VRef l) ∧ hc !! l = Some m).
  { intros m Hc.
    match goal with H : context [mixin_call ?a ?b ?e ?k ?s] |- _ =>
      destruct (mixin_call_calls a b e k s) as [[Hn _]|[Hy Hdisj]] end.
    { rewrite Hn in Hc. by apply eq_sym, app_singleton_neq in Hc. }
    rewrite Hy in Hc. simpl in Hc. apply app_singleton_inj in Hc.
    injection Hc as <- <-. simpl. split.
    - apply lookup_union_Some_l. by simplify_map_eq.
    - by simplify_map_eq. }
  destruct types as [[|t ts]|].
  - intros [Hc Hh]%Hcall. split; [done|]. by exists p2.
  - destruct (first_invalid _ _);
      [by intros ?%eq_sym%app_singleton_neq|].
    intros [Hc Hh]%Hcall. split; [done|]. eexists. split; [done|].
    split_and!; [by simplify_map_eq..|].
    intros k Hn. rewrite lookup_insert_ne by (intros <-; set_solver).
    by apply Ho.
  - intros [Hc Hh]%Hcall. split; [done|]. by exists p2.
Qed.

Lemma max_results_params_sent o ev sex age ex mr iid kwargs st l p0 c hc :
  o = Suggest ev sex age ex mr ∨ o = RedFlags ev sex age ex mr →
  passed_only_as kwargs "params" l →
  dicts st !! l = Some p0 →
  calls (run_session_op api o iid kwargs st).2 = calls st ++ [(c, hc)] →
  c_kwargs c !! "params" = Some (VRef l) ∧
  hc !! l = Some ({[ "max_results" := mr ]} ∪ p0).
Proof.
  intros Ho [Hk Hother] Hl.
  assert (Hh : ∀ lh mh,
    popped_updated (<[l := {[ "max_results" := mr ]} ∪ p0]> (dicts st))
      (kwargs !! "headers") (get_interview_id_headers api iid) = Some (lh, mh) →
    lh ≠ l).
  { intros lh mh Hpu. eapply popped_updated_other; [done| |by apply Hother].
    by simplify_map_eq. }
  destruct Ho as [-> | ->]; simpl.
  - rewrite suggest_run, Hk, (popped_updated_ref _ _ _ _ Hl). cbv zeta.
    destruct (popped_updated _ (kwargs !! "headers") _) as [[lh mh]|] eqn:Hpu;
      [|by intros ?%eq_sym%app_singleton_neq].
    specialize (Hh _ _ eq_refl). rewrite (proj1 (invoke_calls _ _ _)).
    intros Hc. apply app_singleton_inj in Hc. injection Hc as <- <-.
    by simplify_map_eq.
  - rewrite red_flags_run, Hk, (popped_updated_ref _ _ _ _ Hl). cbv zeta.
    destruct (popped_updated _ (kwargs !! "headers") _) as [[lh mh]|] eqn:Hpu;
      [|by intros ?%eq_sym%app_singleton_neq].
    specialize (Hh _ _ eq_refl). rewrite (proj1 (invoke_calls _ _ _)).
    intros Hc. apply app_singleton_inj in Hc. injection Hc as <- <-.
    by simplify_map_eq.
Qed.

Lemma parse_data_sent text include_tokens iid kwargs st l d0 c hc :
  passed_only_as kwargs "data" l →
  dicts st !! l = Some d0 →
  calls (APIv2Connector.parse api text include_tokens iid kwargs st).2
    = calls st ++ [(c, hc)] →
  c_kwargs c !! "data" = Some (VRef l) ∧
  hc !! l = Some ({[ "text" := text; "include_tokens" := include_tokens ]} ∪ d0).
Proof.
  intros [Hk Hother] Hl. rewrite parse_run.
  destruct (popped_updated _ (kwargs !! "headers") _) as [[lh mh]|] eqn:Hpu;
    [|by intros ?%eq_sym%app_singleton_neq].
  assert (lh ≠ l) by (eapply popped_updated_other; [done..|by apply Hother]).
  cbv zeta. rewrite Hk, (popped_updated_ref _ _ d0) by by simplify_map_eq.
  rewrite (proj1 (invoke_calls _ _ _)).
  intros Hc. apply app_singleton_inj in Hc. injection Hc as <- <-.
  by simplify_map_eq.
Qed.

(** C8, as the code has it. In every optional mapping that a method merges
    ([d ∪ m] is [m] with the entries of [d] put over it), the entries the
    method derives from its arguments are put over the caller's: phrase and
    max_results, sex when given and type when there are filters, in the
    params of [search]; max_results in the params of [suggest] and
    [red_flags]; text and include_tokens in the data of [parse]; the
    interview-id entry in the headers. The caller's entries under the keys
    the method does not set are kept. *)
Theorem derived_entries_win :
  (∀ phrase sex mr types kwargs st l p0 c hc,
     kwargs !! "params" = Some (VRef l) →
     dicts st !! l = Some p0 →
     calls (APIv2Connector.search api phrase sex mr types kwargs st).2
       = calls st ++ [(c, hc)] →
     let given :=
       truthy (<[l := {[ "phrase" := phrase; "max_results" := mr ]} ∪ p0]>
                 (dicts st)) sex in
     c_kwargs c !! "params" = Some (VRef l) ∧
     ∃ sent,
       hc !! l = Some sent ∧
       sent !! "phrase" = Some phrase ∧
       sent !! "max_results" = Some mr ∧
       sent !! "sex" = (if given then Some sex else p0 !! "sex") ∧
       sent !! "type" = match types with
                        | Some ((_ :: _) as ts) =>
                            Some (VList (get_value api <$> ts))
                        | _ => p0 !! "type"
                        end ∧
       ∀ k, k ∉ ["phrase"; "max_results"; "sex"; "type"] →
            sent !! k = p0 !! k) ∧
  (∀ o ev sex age ex mr iid kwargs st l p0 c hc,
     o = Suggest ev sex age ex mr ∨ o = RedFlags ev sex age ex mr →
     passed_only_as kwargs "params" l →
     dicts st !! l = Some p0 →
     calls (run_session_op api o iid kwargs st).2 = calls st ++ [(c, hc)] →
     c_kwargs c !! "params" = Some (VRef l) ∧
     hc !! l = Some ({[ "max_results" := mr ]} ∪ p0)) ∧
  (∀ text include_tokens iid kwargs st l d0 c hc,
     passed_only_as kwargs "data" l →
     dicts st !! l = Some d0 →
     calls (APIv2Connector.parse api text include_tokens iid kwargs st).2
       = calls st ++ [(c, hc)] →
     c_kwargs c !! "data" = Some (VRef l) ∧
     hc !! l = Some ({[ "text" := text; "include_tokens" := include_tokens ]}
                     ∪ d0)) ∧
  (∀ o iid kwargs st l hd c hc,
     passed_only_as kwargs "headers" l →
     dicts st !! l = Some hd →
     calls (run_session_op api o iid kwargs st).2 = calls st ++ [(c, hc)] →
     c_kwargs c !! "headers" = Some (VRef l) ∧
     hc !! l = Some (get_interview_id_headers api iid ∪ hd)).
Proof.
  split_and!.
  - apply search_params_sent.
  - apply max_results_params_sent.
  - apply parse_data_sent.
  - intros * Hk Hl Hc.
    by apply (proj2 (session_op_headers api o iid kwargs st l hd Hk Hl)).
Qed.

End merges.

(** ** One call, and nothing caught *)

Section once.
Context (api : API).

Lemma silent_get_session r : silent (get_session r).
Proof. intros st. unfold get_session. by destruct (sessions st !! r). Qed.

Lemma silent_keywords a b : silent (keywords a b).
Proof. intros st. unfold keywords. by case_bool_decide. Qed.

Lemma silent_required k kw : silent (required k kw).
Proof. intros st. unfold required. by destruct (kw !! k). Qed.

Lemma once_at_raise {A} (k : value → M A) st e st' :
  calls st' = calls st → once_at api k st (Raise e, st').
Proof. intros Hc. left. by exists e. Qed.

Lemma once_at_invoke c h st :
  once_at api mret st (invoke api c (set_dicts h st)).
Proof.
  right. exists c, (State h (sessions st) (calls st ++ [(c, h)])).
  split_and!; [done..|]. unfold invoke. simpl.
  by destruct (transport api c h).
Qed.

Lemma once_at_mixin_call callee explicit kwargs h st :
  once_at api mret st (mixin_call api callee explicit kwargs (set_dicts h st)).
Proof.
  rewrite run_mixin_call. case_bool_decide.
  - apply once_at_invoke.
  - by apply once_at_raise.
Qed.

Lemma set_dicts_same st : set_dicts (dicts st) st = st.
Proof. by destruct st. Qed.

Lemma once_invoke c : calls_once api (invoke api c) mret.
Proof. intros st. rewrite <- (set_dicts_same st) at 2. apply once_at_invoke. Qed.

Lemma once_mixin_call callee explicit kwargs :
  calls_once api (mixin_call api callee explicit kwargs) mret.
Proof.
  intros st. rewrite <- (set_dicts_same st) at 2. apply once_at_mixin_call.
Qed.

Lemma run_bind {A B} (m : M B) (f : B → M A) st :
  (m ≫= f) st = match m st with
                | (Ok b, st') => f b st'
                | (Raise e, st') => (Raise e, st')
                end.
Proof. reflexivity. Qed.

Lemma once_bind_before {A B} (m : M B) (f : B → M A) k :
  silent m → (∀ b, calls_once api (f b) k) → calls_once api (m ≫= f) k.
Proof.
  intros Hm Hf st. rewrite run_bind.
  destruct (Hm st) as [Hc Hs]. destruct (m st) as [[b|e] st0]; simpl in *.
  - destruct (Hf b st0) as [(e & He & Hce)|(c & st1 & Hc1 & Hs1 & Hr)].
    + left. exists e. split; [done | congruence].
    + right. exists c, st1. split_and!; congruence.
  - left. by exists e.
Qed.

Lemma once_bind_after {A B} (m : M B) (f : B → M A) k :
  calls_once api m k → calls_once api (m ≫= f) (λ v, k v ≫= f).
Proof.
  intros Hm st. rewrite run_bind.
  destruct (Hm st) as [(e & He & Hce)|(c & st1 & Hc1 & Hs1 & Hr)].
  - left. exists e. destruct (m st) as [[b|e'] st0]; simplify_eq/=. by split.
  - right. exists c, st1. split_and!; [done..|]. rewrite Hr.
    by destruct (transport api c (dicts st1)).
Qed.

Lemma once_ext {A} (m : M A) k k' :
  (∀ v st, k v st = k' v st) → calls_once api m k → calls_once api m k'.
Proof.
  intros Hk Hm st.
  destruct (Hm st) as [?|(c & st1 & Hc1 & Hs1 & Hr)]; [by left|].
  right. exists c, st1. split_and!; [done..|]. rewrite Hr.
  destruct (transport api c (dicts st1)); [done | apply Hk].
Qed.

(** The methods of [APIv2Connector] return the response as it is. *)
Lemma once_diagnostic_outcome callee extend ev sex age ex iid kwargs :
  calls_once api (diagnostic_outcome api callee extend ev sex age ex iid kwargs)
    mret.
Proof.
  intros st. unfold diagnostic_outcome.
  destruct (popped_updated _ _ _) as [[lh mh]|].
  - apply once_at_mixin_call.
  - by apply once_at_raise.
Qed.

Lemma once_session_op o iid kwargs :
  calls_once api (run_session_op api o iid kwargs) mret.
Proof.
  intros st. destruct o; simpl.
  - rewrite parse_run.
    destruct (popped_updated _ _ _) as [[lh mh]|]; [|by apply once_at_raise].
    cbv zeta. destruct (popped_updated _ _ _) as [[ld md]|];
      [apply once_at_invoke | by apply once_at_raise].
  - rewrite suggest_run.
    destruct (popped_updated _ _ _) as [[lp mp]|]; [|by apply once_at_raise].
    cbv zeta. destruct (popped_updated _ _ _) as [[lh mh]|];
      [apply once_at_invoke | by apply once_at_raise].
  - rewrite red_flags_run.
    destruct (popped_updated _ _ _) as [[lp mp]|]; [|by apply once_at_raise].
    cbv zeta. destruct (popped_updated _ _ _) as [[lh mh]|];
      [apply once_at_invoke | by apply once_at_raise].
  - rewrite diagnosis_run. apply once_diagnostic_outcome.
  - rewrite rationale_run. apply once_diagnostic_outcome.
  - rewrite explain_run. apply once_diagnostic_outcome.
  - rewrite triage_run. apply once_diagnostic_outcome.
Qed.

Lemma once_search phrase sex mr types kwargs :
  calls_once api (APIv2Connector.search api phrase sex mr types kwargs) mret.
Proof.
  intros st. rewrite search_run.
  destruct (popped_updated _ _ _) as [[lp mp]|]; [|by apply once_at_raise].
  cbv zeta. destruct types as [[|t ts]|]; try apply once_at_mixin_call.
  destruct (first_invalid _ _);
    [by apply once_at_raise | apply once_at_mixin_call].
Qed.

Lemma once_diagnostic_kw method kw :
  (∀ ev sex age ex iid kwargs, calls_once api (method ev sex age ex iid kwargs) mret) →
  calls_once api (APIv2Connector.diagnostic_kw method kw) mret.
Proof.
  intros Hm. unfold APIv2Connector.diagnostic_kw.
  repeat (apply once_bind_before; [apply silent_required | intros ?]).
  apply Hm.
Qed.

Lemma once_ret_bind {A} (m : M value) (f : value → M A) (k : value → M A) :
  calls_once api m mret → (∀ v st, f v st = k v st) →
  calls_once api (m ≫= f) k.
Proof.
  intros Hm Hk. eapply once_ext; [|by apply once_bind_after].
  intros v st. apply Hk.
Qed.

Ltac once_steps :=
  repeat (apply once_bind_before;
          [first [apply silent_get_session | apply silent_keywords
                 | apply silent_required] | intros ?]).

Lemma once_diagnostic_kw' method kw :
  (∃ callee extend, ∀ ev sex age ex iid kwargs st,
     method ev sex age ex iid kwargs st
     = diagnostic_outcome api callee extend ev sex age ex iid kwargs st) →
  calls_once api (APIv2Connector.diagnostic_kw method kw) mret.
Proof.
  intros (callee & extend & Hm). apply once_diagnostic_kw.
  intros ev sex age ex iid kwargs st. rewrite Hm. apply once_diagnostic_outcome.
Qed.

Lemma once_model_suggest r mr kwargs :
  calls_once api (ModelAPIv2Connector.suggest api r mr kwargs) mret.
Proof.
  unfold ModelAPIv2Connector.suggest. once_steps.
  apply once_ret_bind; [|done]. unfold APIv2Connector.suggest_kw. once_steps.
  apply (once_session_op (Suggest _ _ _ _ _)).
Qed.

Lemma once_model_red_flags r mr kwargs :
  calls_once api (ModelAPIv2Connector.red_flags api r mr kwargs)
    (λ v, lift_sum (from_json api "RedFlagList" v)).
Proof.
  unfold ModelAPIv2Connector.red_flags. once_steps.
  apply once_ret_bind; [|done]. unfold APIv2Connector.red_flags_kw. once_steps.
  apply (once_session_op (RedFlags _ _ _ _ _)).
Qed.

Lemma once_model_parse text include_tokens iid kwargs :
  calls_once api (ModelAPIv2Connector.parse api text include_tokens iid kwargs)
    (λ v, lift_sum (from_json api "ParseResults" v)).
Proof.
  unfold ModelAPIv2Connector.parse. once_steps.
  apply once_ret_bind; [|done]. unfold APIv2Connector.parse_kw. once_steps.
  apply (once_session_op (Parse _ _)).
Qed.

Lemma once_model_diagnosis r kwargs :
  calls_once api (ModelAPIv2Connector.diagnosis api r kwargs)
    (λ v, s ← get_session r;
          s' ← lift_sum (update_from_api api s v);
          set_session r s';; mret r).
Proof.
  unfold ModelAPIv2Connector.diagnosis. once_steps.
  apply once_ret_bind; [|done]. apply once_diagnostic_kw'.
  exists "diagnosis", id. intros. apply diagnosis_run.
Qed.

Lemma once_model_rationale r kwargs :
  calls_once api (ModelAPIv2Connector.rationale api r kwargs)
    (λ v, lift_sum (from_json api "RationaleResult" v)).
Proof.
  unfold ModelAPIv2Connector.rationale. once_steps.
  apply once_ret_bind; [|done]. apply once_diagnostic_kw'.
  exists "rationale", id. intros. apply rationale_run.
Qed.

Lemma once_model_explain r target_id kwargs :
  calls_once api (ModelAPIv2Connector.explain api r target_id kwargs)
    (λ v, lift_sum (from_json api "ExplainResults" v)).
Proof.
  unfold ModelAPIv2Connector.explain. once_steps.
  apply once_ret_bind; [|done]. unfold APIv2Connector.explain_kw. once_steps.
  intros st. rewrite explain_run. apply once_diagnostic_outcome.
Qed.

Lemma once_model_triage r kwargs :
  calls_once api (ModelAPIv2Connector.triage api r kwargs) mret.
Proof.
  unfold ModelAPIv2Connector.triage. once_steps.
  apply once_ret_bind; [|done]. apply once_diagnostic_kw'.
  exists "triage", id. intros. apply triage_run.
Qed.

Lemma once_model_lookup callee class explicit kwargs :
  calls_once api (ModelAPIv2Connector.lookup api callee class explicit kwargs)
    (λ v, lift_sum (from_json api class v)).
Proof.
  unfold ModelAPIv2Connector.lookup.
  apply once_ret_bind; [apply once_mixin_call | done].
Qed.

(** Every method makes at most one call and then does its conversion. *)
Lemma run_calls_once o : calls_once api (run api o) (conversion api o).
Proof.
  destruct o as [| | | | | | | | | |[]]; unfold run, fmap, M_fmap.
  - apply once_ret_bind; [apply once_invoke | done].
  - apply once_ret_bind; [apply once_search | done].
  - apply once_ret_bind; [apply once_session_op | done].
  - apply once_ret_bind; [apply once_model_suggest | done].
  - eapply once_ext; [|apply once_bind_after, once_model_red_flags]. done.
  - eapply once_ext; [|apply once_bind_after, once_model_parse]. done.
  - eapply once_ext; [|apply once_bind_after, once_model_diagnosis].
    intros v st. unfold conversion. rewrite !run_bind.
    destruct (get_session _ st) as [[s|e] st1]; [|done]. rewrite !run_bind.
    destruct (lift_sum _ st1) as [[s'|e] st2]; done.
  - eapply once_ext; [|apply once_bind_after, once_model_rationale]. done.
  - eapply once_ext; [|apply once_bind_after, once_model_explain]. done.
  - apply once_ret_bind; [apply once_model_triage | done].
  - eapply once_ext; [|apply once_bind_after, once_model_lookup]. done.
  - eapply once_ext; [|apply once_bind_after, once_model_lookup]. done.
  - eapply once_ext; [|apply once_bind_after, once_model_lookup]. done.
  - eapply once_ext; [|apply once_bind_after, once_model_lookup]. done.
  - eapply once_ext; [|apply once_bind_after, once_model_lookup]. done.
  - eapply once_ext; [|apply once_bind_after, once_model_lookup]. done.
  - eapply once_ext; [|apply once_bind_after, once_model_lookup]. done.
  - eapply once_ext; [|apply once_bind_after, once_model_lookup]. done.
Qed.

End once.

Section propagation.
Context (api : API).

Lemma conversion_calls o v st :
  calls (conversion api o v st).2 = calls st.
Proof.
  assert (Hclass : ∀ class,
    calls ((m ← lift_sum (from_json api class v);
            mret (Typed m) : M (answer api)) st).2 = calls st).
  { intros class. rewrite run_bind. by destruct (from_json api class v). }
  destruct o as [| | | | | | | | | |[]]; try done; try apply Hclass.
  unfold conversion. rewrite run_bind. unfold get_session.
  destruct (sessions st !! _); [|done].
  rewrite run_bind. by destruct (update_from_api api _ v).
Qed.

Lemma conversion_from_json o class v e st :
  result_class o = Some class →
  from_json api class v = inl e →
  (conversion api o v st).1 = Raise e.
Proof.
  intros Hc He.
  destruct o as [| | | | | | | | | |[]]; simplify_eq/=;
    by rewrite run_bind, He.
Qed.

Lemma conversion_update_from_api r kwargs S v e st :
  sessions st !! r = Some S →
  update_from_api api S v = inl e →
  (conversion api (ModelDiagnosis r kwargs) v st).1 = Raise e.
Proof.
  intros HS He. unfold conversion. rewrite run_bind. unfold get_session.
  rewrite HS. by rewrite run_bind, He.
Qed.

(** C7. Whatever the method of either class: it either raises before any
    call, or makes exactly one call. When the transport raises on that call,
    the method raises the same exception; when the transport answers and the
    conversion of the answer ([from_json] of the result class, or
    [update_from_api] for [diagnosis]) raises, the method raises that
    exception. Nothing is tried again and no value is returned instead. *)
Theorem errors_propagate_unchanged o st :
  let res := run api o st in
  (∃ e, res.1 = Raise e ∧ calls res.2 = calls st) ∨
  ∃ c h, calls res.2 = calls st ++ [(c, h)] ∧
    match transport api c h with
    | inl e => res.1 = Raise e
    | inr R =>
        (∀ class e, result_class o = Some class →
           from_json api class R = inl e → res.1 = Raise e) ∧
        (∀ r kwargs S e, o = ModelDiagnosis r kwargs →
           sessions st !! r = Some S →
           update_from_api api S R = inl e → res.1 = Raise e)
    end.
Proof.
  intros res. subst res.
  destruct (run_calls_once api o st) as [?|(c & st1 & Hc & Hs & Hr)];
    [by left|].
  right. exists c, (dicts st1). rewrite Hr.
  destruct (transport api c (dicts st1)) as [e|R]; [done|].
  split; [by rewrite conversion_calls|]. split.
  - intros class e Hclass He. by eapply conversion_from_json.
  - intros r kwargs S e -> HS He.
    eapply conversion_update_from_api; [by rewrite Hs | done].
Qed.

End propagation.

(** ** The methods on session objects *)

Section model.
Context (api : API).

Lemma lookup_rest names (kw : dict) k :
  rest names kw !! k = if bool_decide (k ∈ names) then None else kw !! k.
Proof.
  induction names as [|n names IH].
  - rewrite bool_decide_eq_false_2; [reflexivity | apply not_elem_of_nil].
  - cbn [rest foldr]. destruct (decide (n = k)) as [->|Hne].
    + rewrite lookup_delete_eq, bool_decide_eq_true_2; [done | by left].
    + rewrite lookup_delete_ne by done. unfold rest in IH. rewrite IH.
      rewrite (bool_decide_ext (k ∈ n :: names) (k ∈ names)); [done|].
      rewrite elem_of_cons. naive_solver.
Qed.

Lemma run_keywords_disjoint (a b : dict) st :
  a ##ₘ b → keywords a b st = (Ok (a ∪ b), st).
Proof. intros H. unfold keywords. by rewrite bool_decide_eq_true_2. Qed.

Lemma session_keywords_disjoint (s : Diagnosis) kwargs :
  new_keywords kwargs →
  ({[ "interview_id" := interview_id s ]} : dict) ##ₘ get_api_request s ∧
  {[ "interview_id" := interview_id s ]} ∪ get_api_request s ##ₘ kwargs.
Proof.
  intros Hnew. unfold get_api_request. split.
  - apply map_disjoint_spec. intros k x y Hx Hy.
    apply lookup_singleton_Some in Hx as [<- _]. by simplify_map_eq.
  - apply map_disjoint_spec. intros k x y Hx Hy.
    assert (k ∈ ["interview_id"; "sex"; "age"; "evidence"; "extras"; "data"]).
    { apply lookup_union_Some_raw in Hx as [Hx|[_ Hx]].
      - apply lookup_singleton_Some in Hx as [<- _]. set_solver.
      - repeat (apply lookup_insert_Some in Hx as [[<- _]|[_ Hx]];
                [set_solver|]).
        apply lookup_singleton_Some in Hx as [<- _]. set_solver. }
    rewrite Hnew in Hy by done. done.
Qed.

(** C4. Given a session object and a transport that answers with [R], the
    [diagnosis] method on session objects returns the reference it was given,
    and the object under that reference is the one it was, updated from [R];
    no other session object is made or changed. *)
Theorem model_diagnosis_same_session diagnosis_request S R S' kwargs st :
  sessions st !! diagnosis_request = Some S →
  (∀ c h, transport api c h = inr R) →
  update_from_api api S R = inr S' →
  new_keywords kwargs →
  optional_mapping (dicts st) kwargs "headers" →
  ∃ st',
    ModelAPIv2Connector.diagnosis api diagnosis_request kwargs st
      = (Ok diagnosis_request, st') ∧
    sessions st' = <[diagnosis_request := S']> (sessions st).
Proof.
  intros HS HR HS' Hnew Hh.
  destruct (session_keywords_disjoint S kwargs Hnew) as [Hd1 Hd2].
  unfold ModelAPIv2Connector.diagnosis.
  rewrite run_bind. unfold get_session at 1. rewrite HS. cbv zeta.
  rewrite run_bind, (run_keywords_disjoint _ _ _ Hd1).
  rewrite run_bind, (run_keywords_disjoint _ _ _ Hd2).
  set (kw := _ ∪ kwargs).
  assert (Hkw : ∀ k v, get_api_request S !! k = Some v → kw !! k = Some v).
  { intros k v Hk. apply lookup_union_Some_l, lookup_union_Some_raw. right.
    split; [|done]. apply lookup_singleton_None. intros <-.
    unfold get_api_request in Hk. by simplify_map_eq. }
  rewrite run_bind. unfold APIv2Connector.diagnostic_kw.
  rewrite !run_bind. unfold required, get_api_request in *.
  rewrite (Hkw "evidence" (evidence S)) by by simplify_map_eq.
  rewrite (Hkw "sex" (patient_sex S)) by by simplify_map_eq.
  rewrite (Hkw "age" (patient_age S)) by by simplify_map_eq.
  change (∃ st',
    (response ← APIv2Connector.diagnosis api (evidence S) (patient_sex S)
       (patient_age S) (default VNone (kw !! "extras"))
       (default VNone (kw !! "interview_id"))
       (rest ["evidence"; "sex"; "age"; "extras"; "interview_id"] kw);
     s ← get_session diagnosis_request;
     s' ← lift_sum (update_from_api api s response);
     set_session diagnosis_request s';; mret diagnosis_request) st
    = (Ok diagnosis_request, st') ∧
    sessions st' = <[diagnosis_request := S']> (sessions st)).
  assert (Hrest : rest ["evidence"; "sex"; "age"; "extras"; "interview_id"] kw
                  = kwargs).
  { apply map_eq. intros k. rewrite lookup_rest. case_bool_decide as Hin.
    - symmetry. apply Hnew. set_solver.
    - unfold kw. rewrite lookup_union_r; [done|].
      apply lookup_union_None. split.
      + apply lookup_singleton_None. set_solver.
      + repeat (rewrite lookup_insert_ne by set_solver).
        apply lookup_singleton_None. set_solver. }
  rewrite Hrest, run_bind, diagnosis_run. unfold diagnostic_outcome.
  destruct (popped_updated_mapping (dicts st) (kwargs !! "headers")
    (get_interview_id_headers api (default VNone (kw !! "interview_id"))) Hh)
    as [[lh mh] ->].
  cbv zeta. rewrite run_mixin_call, bool_decide_eq_true_2.
  2:{ apply map_disjoint_spec. intros k x y Hx Hy.
      apply lookup_delete_Some in Hy as [Hne Hy].
      apply lookup_insert_Some in Hx as [[<- _]|[_ Hx]].
      - rewrite Hnew in Hy by set_solver. done.
      - apply lookup_singleton_Some in Hx as [<- _]. done. }
  unfold invoke. rewrite HR. cbn [dicts sessions calls set_dicts].
  rewrite run_bind. unfold get_session at 1. cbn [sessions]. rewrite HS.
  rewrite run_bind, HS'. cbn [lift_sum mret M_ret].
  eexists. split; [reflexivity|]. reflexivity.
Qed.

End model.

(** C6. On session objects, [suggest] and [red_flags] take keyword arguments
    and pass none of them down: the result is the same whatever they are.
    With headers from the caller, [suggest] sends only the interview-id
    header and leaves the caller's mapping as it was, where [triage], like
    [diagnosis], [rationale] and [explain], sends the caller's headers with
    the interview-id header added. *)
Theorem model_suggest_drops_kwargs :
  (∀ api diagnosis_request max_results kwargs kwargs',
     ModelAPIv2Connector.suggest api diagnosis_request max_results kwargs
     = ModelAPIv2Connector.suggest api diagnosis_request max_results kwargs') ∧
  (∀ api diagnosis_request max_results kwargs kwargs',
     ModelAPIv2Connector.red_flags api diagnosis_request max_results kwargs
     = ModelAPIv2Connector.red_flags api diagnosis_request max_results kwargs') ∧
  (let api := example_api (answers (VList [])) in
   let st := caller_state traced_headers in
   let dropped :=
     ModelAPIv2Connector.suggest api 1%positive (VInt 8) headers_kwargs st in
   let passed := ModelAPIv2Connector.triage api 1%positive headers_kwargs st in
   (∃ l, c_kwargs (last_call dropped.2).1 !! "headers" = Some (VRef l) ∧
         (last_call dropped.2).2 !! l
         = Some {[ "Interview-Id" := VStr "abc123" ]}) ∧
   dicts dropped.2 !! 1%positive = Some traced_headers ∧
   c_kwargs (last_call passed.2).1 !! "headers" = Some (VRef 1%positive) ∧
   (last_call passed.2).2 !! 1%positive
   = Some (<["Interview-Id" := VStr "abc123"]> traced_headers)).
Proof.
  split; [reflexivity|]. split; [reflexivity|].
  cbv zeta. split_and!.
  - eexists. split; vm_compute; reflexivity.
  - vm_compute. reflexivity.
  - vm_compute. reflexivity.
  - vm_compute. reflexivity.
Qed.

(** ** The statements on closed inputs *)

Lemma diagnostic_data_dict_keys_witness :
  let extras := VDict {[ "note" := VStr "x" ]} in
  let data := APIv2Connector.get_diagnostic_data_dict ∅ example_evidence
                (VStr "male") (VInt 42) extras in
  optional_extras ∅ extras (Some {[ "note" := VStr "x" ]}) ∧
  data !! "evidence" = Some example_evidence ∧
  data !! "extras" = Some extras.
Proof.
  intros extras data.
  assert (H : optional_extras ∅ extras (Some {[ "note" := VStr "x" ]})).
  { right. split; [by eexists | reflexivity]. }
  split; [exact H|].
  destruct (diagnostic_data_dict_keys ∅ example_evidence (VStr "male")
    (VInt 42) extras _ H) as (_ & _ & He & Hx & _).
  split; [exact He|]. apply Hx. eexists. split; [reflexivity|].
  intros Hempty. apply (f_equal (λ m : dict, m !! "note")) in Hempty.
  vm_compute in Hempty. discriminate.
Defined.

Lemma search_invalid_concept_type_witness :
  ∃ st',
    APIv2Connector.search (example_api (answers (VList []))) (VStr "head")
      VNone (VInt 8)
      (Some ([VEnum "SYMPTOM"] ++ VStr "bogus" :: [VStr "lab_test"]))
      search_kwargs search_state
    = (Raise (InvalidSearchConceptType (VStr "bogus")), st') ∧
    calls st' = [].
Proof.
  apply (search_invalid_concept_type (example_api (answers (VList [])))).
  - constructor; [reflexivity | constructor].
  - unfold resolves. vm_compute. discriminate.
  - intros v Hv. vm_compute in Hv. injection Hv as <-. by eexists.
Defined.

Lemma search_error_mutates_params_witness :
  let api := example_api (answers (VList [])) in
  let res := APIv2Connector.search api (VStr "head") (VStr "female") (VInt 8)
               (Some [VStr "bogus"]) search_kwargs search_state in
  let p := search_params (dicts search_state) 1%positive
             {[ "max_results" := VInt 100 ]}
             (VStr "head") (VStr "female") (VInt 8) in
  dicts res.2 = <[1%positive := p]> (dicts search_state) ∧
  p !! "phrase" = Some (VStr "head") ∧
  p !! "max_results" = Some (VInt 8) ∧
  (truthy (<[1%positive := {[ "phrase" := VStr "head"; "max_results" := VInt 8 ]}
                 ∪ {[ "max_results" := VInt 100 ]}]> (dicts search_state))
     (VStr "female") = true →
   p !! "sex" = Some (VStr "female")) ∧
  p !! "type" = ({[ "max_results" := VInt 100 ]} : dict) !! "type".
Proof.
  intros api res p.
  apply (search_error_mutates_params api (VStr "head") (VStr "female") (VInt 8)
    (Some [VStr "bogus"]) search_kwargs search_state 1%positive
    {[ "max_results" := VInt 100 ]} (VStr "bogus") res.2).
  - reflexivity.
  - reflexivity.
  - vm_compute. reflexivity.
  - vm_compute. reflexivity.
Defined.

Lemma session_headers_merged_witness :
  let api := example_api (answers (VList [])) in
  let res := run_session_op api suggest_example (VStr "abc123") headers_kwargs
               (caller_state traced_headers) in
  c_kwargs (last_call res.2).1 !! "headers" = Some (VRef 1%positive) ∧
  ∃ sent,
    (last_call res.2).2 !! 1%positive = Some sent ∧
    sent = <["Interview-Id" := VStr "abc123"]> traced_headers ∧
    sent !! "Interview-Id" = Some (VStr "abc123") ∧
    ∀ k, k ≠ "Interview-Id" → sent !! k = traced_headers !! k.
Proof.
  intros api res.
  apply (session_headers_merged api suggest_example (VStr "abc123")
    headers_kwargs (caller_state traced_headers) 1%positive traced_headers).
  - split; [reflexivity|]. intros k' Hk'. unfold headers_kwargs.
    rewrite lookup_singleton_ne by done. discriminate.
  - reflexivity.
  - eexists. split; [reflexivity | discriminate].
  - vm_compute. reflexivity.
Defined.

Lemma caller_headers_mutated_witness :
  let api := example_api (fails NetworkError) in
  let res := run_session_op api suggest_example (VStr "abc123") headers_kwargs
               (caller_state traced_headers) in
  res.1 = Raise NetworkError ∧
  dicts res.2 !! 1%positive
  = Some (<["Interview-Id" := VStr "abc123"]> traced_headers).
Proof.
  intros api res. split; [vm_compute; reflexivity|].
  apply (caller_headers_mutated api suggest_example (VStr "abc123")
    headers_kwargs (caller_state traced_headers) 1%positive traced_headers).
  - split; [reflexivity|]. intros k' Hk'. unfold headers_kwargs.
    rewrite lookup_singleton_ne by done. discriminate.
  - reflexivity.
  - eexists. split; [reflexivity | discriminate].
  - intros v Hv. vm_compute in Hv. discriminate.
Defined.

Lemma explain_payload_witness :
  let api := example_api (answers (VDict ∅)) in
  let res := APIv2Connector.explain api (VStr "c_1") example_evidence
               (VStr "male") (VInt 42) VNone (VStr "abc123") headers_kwargs
               (caller_state traced_headers) in
  c_kwargs (last_call res.2).1 !! "data"
  = Some (VDict (<["target" := VStr "c_1"]>
      (APIv2Connector.get_diagnostic_data_dict (last_call res.2).2
         example_evidence (VStr "male") (VInt 42) VNone))).
Proof.
  intros api res.
  apply (proj1 (explain_payload api) (VStr "c_1") example_evidence
    (VStr "male") (VInt 42) VNone (VStr "abc123") headers_kwargs
    (caller_state traced_headers)).
  vm_compute. reflexivity.
Defined.

Lemma derived_entries_win_witness :
  let api := example_api (answers (VList [])) in
  let res := APIv2Connector.search api (VStr "head") (VStr "female") (VInt 8)
               (Some filters_example) search_kwargs colliding_state in
  c_kwargs (last_call res.2).1 !! "params" = Some (VRef 1%positive) ∧
  ∃ sent,
    (last_call res.2).2 !! 1%positive = Some sent ∧
    sent !! "phrase" = Some (VStr "head") ∧
    sent !! "max_results" = Some (VInt 8) ∧
    sent !! "sex" = Some (VStr "female") ∧
    sent !! "type" = Some (VList [VStr "symptom"; VStr "lab_test"]) ∧
    sent !! "page" = Some (VInt 2).
Proof.
  intros api res.
  destruct (proj1 (derived_entries_win api) (VStr "head") (VStr "female")
    (VInt 8) (Some filters_example) search_kwargs colliding_state 1%positive
    colliding_params (last_call res.2).1 (last_call res.2).2)
    as (Hc & sent & Hs & Hp & Hm & Hx & Ht & Ho).
  - reflexivity.
  - reflexivity.
  - vm_compute. reflexivity.
  - split; [exact Hc|]. exists sent. split; [exact Hs|].
    split; [exact Hp|]. split; [exact Hm|]. split; [exact Hx|].
    split; [exact Ht|]. rewrite Ho; [reflexivity|].
    intros Hin.
    repeat (apply elem_of_cons in Hin as [Hin|Hin]; [discriminate|]).
    by apply elem_of_nil in Hin.
Defined.

(** C8, as the spec has it, fails: the caller's max_results 100 in the params
    of a search does not reach the transport; the method's max_results 8
    does. *)
Lemma caller_params_overridden :
  ¬ caller_params_win (example_api (answers (VList []))).
Proof.
  intros Hwin.
  destruct (Hwin (VStr "head") VNone (VInt 8) None search_kwargs search_state
    1%positive {[ "max_results" := VInt 100 ]}
    (last_call (APIv2Connector.search (example_api (answers (VList [])))
       (VStr "head") VNone (VInt 8) None search_kwargs search_state).2).1
    (last_call (APIv2Connector.search (example_api (answers (VList [])))
       (VStr "head") VNone (VInt 8) None search_kwargs search_state).2).2
    "max_results" (VInt 100)) as (sent & Hsent & Hk).
  - reflexivity.
  - reflexivity.
  - reflexivity.
  - vm_compute. reflexivity.
  - vm_compute in Hsent. injection Hsent as <-. vm_compute in Hk. discriminate.
Qed.

Lemma model_diagnosis_same_session_witness :
  let R := VDict {[ "conditions" := VList [VStr "c_1"] ]} in
  let api := example_api (answers R) in
  ∃ st',
    ModelAPIv2Connector.diagnosis api 1%positive headers_kwargs
      (caller_state traced_headers) = (Ok 1%positive, st') ∧
    sessions st'
    = <[1%positive := {| patient_sex := VStr "male"; patient_age := VInt 42;
                         evidence := example_evidence; extras := VDict ∅;
                         interview_id := VStr "abc123";
                         conditions := VList [VStr "c_1"];
                         question := VNone |}]>
        (sessions (caller_state traced_headers)).
Proof.
  intros R api.
  apply (model_diagnosis_same_session api 1%positive example_session R).
  - reflexivity.
  - reflexivity.
  - reflexivity.
  - intros k Hk. unfold headers_kwargs. apply lookup_singleton_ne.
    intros <-. vm_compute in Hk. set_solver.
  - intros v Hv. vm_compute in Hv. injection Hv as <-. by eexists.
Defined.

Lemma errors_propagate_unchanged_witness :
  (run (example_api (fails NetworkError)) (ModelRedFlags 1%positive (VInt 8) ∅)
     (caller_state ∅)).1 = Raise NetworkError.
Proof.
  destruct (errors_propagate_unchanged (example_api (fails NetworkError))
    (ModelRedFlags 1%positive (VInt 8) ∅) (caller_state ∅))
    as [(e & _ & Hc)|(c & h & _ & Ht)].
  - vm_compute in Hc. discriminate.
  - exact Ht.
Defined.

(** * Further properties of the methods *)

(** ** Merging into what the caller passed *)

Lemma popped_updated_passed h passed d p0 :
  mapping_passed h passed p0 →
  ∃ l, popped_updated h passed d = Some (l, d ∪ p0) ∧
       (passed = Some (VRef l) ∨ h !! l = None).
Proof.
  assert (Hf : h !! fresh (dom h) = None).
  { apply not_elem_of_dom, is_fresh. }
  destruct passed as [v|]; simpl.
  - destruct v; try done; simpl.
    + intros [= ->]. eauto.
    + intros ->. eauto.
  - intros ->. eauto.
Qed.

Lemma popped_updated_inv h passed d l m :
  popped_updated h passed d = Some (l, m) →
  ∃ p0, mapping_passed h passed p0 ∧ m = d ∪ p0 ∧
        (passed = Some (VRef l) ∨ h !! l = None).
Proof.
  assert (Hf : h !! fresh (dom h) = None).
  { apply not_elem_of_dom, is_fresh. }
  destruct passed as [v|]; simpl.
  - destruct v; try done.
    + intros [= <- <-]. eauto.
    + destruct (h !! l0) eqn:Hl; [|done]. intros [= <- <-]. eauto.
  - intros [= <- <-]. eauto.
Qed.

Lemma first_invalid_None api l :
  first_invalid api l = None ↔ Forall (λ x, has_value api x = true) l.
Proof.
  unfold first_invalid. induction l as [|x l IH]; simpl.
  - split; [constructor | done].
  - destruct (has_value api x) eqn:Hx; simpl.
    + rewrite IH. split; [by constructor | by inversion 1].
    + split; [done | inversion 1; congruence].
Qed.

Section search_more.
Context (api : API).

(** The call of [search], when it makes one. *)
Lemma search_call phrase sex mr types kwargs st c hc :
  calls (APIv2Connector.search api phrase sex mr types kwargs st).2
    = calls st ++ [(c, hc)] →
  ∃ l p0,
    mapping_passed (dicts st) (kwargs !! "params") p0 ∧
    (kwargs !! "params" = Some (VRef l) ∨ dicts st !! l = None) ∧
    let p1 := {[ "phrase" := phrase; "max_results" := mr ]} ∪ p0 in
    let p2 := if truthy (<[l := p1]> (dicts st)) sex
              then <["sex" := sex]> p1 else p1 in
    let sent := match types with
                | Some (t :: ts) => <["type" := VList (get_value api <$> t :: ts)]> p2
                | _ => p2
                end in
    (∀ ts, types = Some ts → Forall (resolves api) ts) ∧
    c = Call "search" ({[ "params" := VRef l ]} ∪ delete "params" kwargs) ∧
    hc = <[l := sent]> (dicts st) ∧
    APIv2Connector.search api phrase sex mr types kwargs st
    = (answered (transport api c hc),
       State hc (sessions st) (calls st ++ [(c, hc)])).
Proof.
  rewrite search_run.
  destruct (popped_updated _ _ _) as [[l m]|] eqn:Hpu;
    [|by intros ?%eq_sym%app_singleton_neq].
  apply popped_updated_inv in Hpu as (p0 & Hp0 & -> & Hl).
  cbv zeta. intros Hc. exists l, p0. split; [done|]. split; [done|].
  assert (Hcall : ∀ m,
    calls (mixin_call api "search" {[ "params" := VRef l ]}
             (delete "params" kwargs)
             (set_dicts (<[l := m]> (dicts st)) st)).2 = calls st ++ [(c, hc)] →
    c = Call "search" ({[ "params" := VRef l ]} ∪ delete "params" kwargs) ∧
    hc = <[l := m]> (dicts st) ∧
    mixin_call api "search" {[ "params" := VRef l ]} (delete "params" kwargs)
      (set_dicts (<[l := m]> (dicts st)) st)
    = (answered (transport api c hc),
       State hc (sessions st) (calls st ++ [(c, hc)]))).
  { intros m. rewrite run_mixin_call. case_bool_decide as Hd.
    - unfold invoke. cbn [dicts sessions calls set_dicts].
      destruct (transport api _ _) eqn:Ht; cbn [snd calls];
        intros Hm; apply app_singleton_inj in Hm; injection Hm as <- <-;
        by rewrite Ht.
    - by intros ?%eq_sym%app_singleton_neq. }
  destruct types as [[|t ts]|].
  - apply Hcall in Hc. split; [|done]. intros ? [= <-]. constructor.
  - destruct (first_invalid _ _) eqn:Hfi;
      [by apply eq_sym, app_singleton_neq in Hc|].
    apply Hcall in Hc. split; [|done]. intros ? [= <-].
    apply first_invalid_None in Hfi. unfold resolves.
    by apply Forall_fmap in Hfi.
  - apply Hcall in Hc. split; [|done]. by intros ? [=].
Qed.

End search_more.

Section search_filters.
Context (api : API).

Lemma mapping_passed_inj h passed p0 p0' :
  mapping_passed h passed p0 → mapping_passed h passed p0' → p0 = p0'.
Proof. destruct passed; simpl; congruence. Qed.

(** X1. A search with filters reaches the transport only when every filter
    resolves to a concept type, and then the params it sends hold, under
    [type], the values of the filters in the order given, beside phrase and
    max_results. *)
Theorem search_types_sent phrase sex mr ts kwargs st c hc :
  ts ≠ [] →
  calls (APIv2Connector.search api phrase sex mr (Some ts) kwargs st).2
    = calls st ++ [(c, hc)] →
  Forall (resolves api) ts ∧
  ∃ l sent,
    c_kwargs c !! "params" = Some (VRef l) ∧
    hc !! l = Some sent ∧
    sent !! "type" = Some (VList (get_value api <$> ts)) ∧
    sent !! "phrase" = Some phrase ∧
    sent !! "max_results" = Some mr.
Proof.
  intros Hts Hc.
  apply search_call in Hc as (l & p0 & _ & _ & Hres & -> & -> & _).
  split; [by apply Hres|]. destruct ts as [|t ts]; [done|].
  eexists l, _. split_and!.
  - apply lookup_union_Some_l. by simplify_map_eq.
  - by simplify_map_eq.
  - by simplify_map_eq.
  - destruct (truthy _ sex); by simplify_map_eq.
  - destruct (truthy _ sex); by simplify_map_eq.
Qed.

(** X2. What [search] leaves alone in the params: without filters the entry
    under [type] is the caller's (none, if the caller has none); with no sex,
    or an empty one, so is the entry under [sex]; and every entry under a key
    other than phrase, max_results, sex and type is the caller's. *)
Theorem search_absent_filters phrase sex mr types kwargs st p0 c hc :
  mapping_passed (dicts st) (kwargs !! "params") p0 →
  calls (APIv2Connector.search api phrase sex mr types kwargs st).2
    = calls st ++ [(c, hc)] →
  ∃ l sent,
    c_kwargs c !! "params" = Some (VRef l) ∧
    hc !! l = Some sent ∧
    (types = None ∨ types = Some [] → sent !! "type" = p0 !! "type") ∧
    (sex = VNone ∨ sex = VStr "" → sent !! "sex" = p0 !! "sex") ∧
    (∀ k, k ∉ ["phrase"; "max_results"; "sex"; "type"] →
          sent !! k = p0 !! k).
Proof.
  intros Hp0 Hc.
  apply search_call in Hc as (l & p0' & Hp0' & _ & _ & -> & -> & _).
  rewrite <- (mapping_passed_inj _ _ _ _ Hp0 Hp0'). clear p0' Hp0'.
  eexists l, _. split; [apply lookup_union_Some_l; by simplify_map_eq|].
  split; [by simplify_map_eq|].
  set (p1 := {[ "phrase" := phrase; "max_results" := mr ]} ∪ p0).
  assert (H1 : ∀ k, k ≠ "phrase" → k ≠ "max_results" → p1 !! k = p0 !! k).
  { intros k ? ?. unfold p1. rewrite lookup_union_r; [done|].
    by simplify_map_eq. }
  split_and!.
  - intros [-> | ->]; destruct (truthy _ sex); simplify_map_eq; by apply H1.
  - intros [-> | ->]; simpl;
      destruct types as [[|t ts]|]; simplify_map_eq; by apply H1.
  - intros k Hk.
    assert (k ≠ "phrase" ∧ k ≠ "max_results" ∧ k ≠ "sex" ∧ k ≠ "type")
      as (? & ? & ? & ?) by (split_and!; intros ->; set_solver).
    destruct types as [[|t ts]|]; destruct (truthy _ sex);
      simplify_map_eq; by apply H1.
Qed.

(** X3. With a params keyword that is left out or a mapping, and filters
    that all resolve, [search] makes its call: to the parent's [search], with
    every keyword argument other than [params] as the caller gave it, and it
    returns what the transport answers or raises what the transport raises. *)
Theorem search_reaches_transport phrase sex mr types kwargs st :
  optional_mapping (dicts st) kwargs "params" →
  (∀ ts, types = Some ts → Forall (resolves api) ts) →
  ∃ c hc,
    APIv2Connector.search api phrase sex mr types kwargs st
    = (answered (transport api c hc),
       State hc (sessions st) (calls st ++ [(c, hc)])) ∧
    c_callee c = "search" ∧
    ∀ k, k ≠ "params" → c_kwargs c !! k = kwargs !! k.
Proof.
  intros Hp Hres.
  assert (∃ c hc,
    calls (APIv2Connector.search api phrase sex mr types kwargs st).2
      = calls st ++ [(c, hc)]) as (c & hc & Hc).
  { rewrite search_run.
    destruct (popped_updated_mapping (dicts st) (kwargs !! "params")
      {[ "phrase" := phrase; "max_results" := mr ]} Hp) as [[l m] ->].
    cbv zeta.
    assert (Hcall : ∀ m', ∃ c hc,
      calls (mixin_call api "search" {[ "params" := VRef l ]}
               (delete "params" kwargs)
               (set_dicts (<[l := m']> (dicts st)) st)).2
      = calls st ++ [(c, hc)]).
    { intros m'. rewrite run_mixin_call, bool_decide_eq_true_2.
      - eexists _, _. by rewrite (proj1 (invoke_calls _ _ _)).
      - apply map_disjoint_spec. intros k x y Hx Hy.
        apply lookup_singleton_Some in Hx as [<- _]. by simplify_map_eq. }
    destruct types as [[|t ts]|]; try apply Hcall.
    assert (Hfi : first_invalid api (get_value api <$> t :: ts) = None).
    { apply first_invalid_None, Forall_fmap. by apply Hres. }
    rewrite Hfi. apply Hcall. }
  exists c, hc.
  destruct (search_call api _ _ _ _ _ _ _ _ Hc)
    as (l & p0 & _ & _ & _ & Hceq & _ & Hrun).
  split; [done|]. subst c. split; [done|]. intros k Hk. simpl.
  rewrite lookup_union_r by by simplify_map_eq. by simplify_map_eq.
Qed.

End search_filters.

Section answers.
Context (api : API).

(** X4. What the methods return when the transport answers [R]: the methods
    of [BasicAPIv2Connector] and [APIv2Connector], and [suggest] and [triage]
    on session objects, return [R] as it is; the other methods on session
    objects and the lookups return [from_json] of their result class on
    [R]. *)
Theorem results_are_conversions o st c h R :
  calls (run api o st).2 = calls st ++ [(c, h)] →
  transport api c h = inr R →
  (result_class o = None → (∀ r kwargs, o ≠ ModelDiagnosis r kwargs) →
   (run api o st).1 = Ok (Json R)) ∧
  (∀ class m, result_class o = Some class →
     from_json api class R = inr m → (run api o st).1 = Ok (Typed m)).
Proof.
  intros Hc HR.
  destruct (run_calls_once api o st) as [(e & _ & Hn)|(c' & st1 & Hc1 & _ & Hr)].
  { rewrite Hn in Hc. by apply eq_sym, app_singleton_neq in Hc. }
  assert (Hcalls : calls (run api o st).2 = calls st1).
  { rewrite Hr. destruct (transport api c' (dicts st1)); [done|].
    apply conversion_calls. }
  rewrite Hc, Hc1 in Hcalls. apply app_singleton_inj in Hcalls.
  injection Hcalls as -> ->. rewrite HR in Hr. rewrite Hr. split.
  - intros Hnone Hnd.
    destruct o as [| | | | | | | | | |[]]; simplify_eq/=; try done.
    by destruct (Hnd diagnosis_request kwargs).
  - intros class m Hclass Hm.
    destruct o as [| | | | | | | | | |[]]; simplify_eq/=;
      by rewrite run_bind, Hm.
Qed.

End answers.

Section session_more.
Context (api : API).

Lemma data_keyword_disjoint (x y : value) (kwargs : dict) :
  ({[ "data" := x; "headers" := y ]} : dict) ##ₘ delete "headers" kwargs
  ↔ kwargs !! "data" = None.
Proof.
  rewrite map_disjoint_spec. split.
  - intros Hd. destruct (kwargs !! "data") as [v|] eqn:Hv; [|done].
    destruct (Hd "data" x v); [by simplify_map_eq|].
    by rewrite lookup_delete_ne.
  - intros Hn k a b Ha Hb. apply lookup_delete_Some in Hb as [Hne Hb].
    apply lookup_insert_Some in Ha as [[<- _]|[_ Ha]]; [congruence|].
    apply lookup_singleton_Some in Ha as [<- _]. done.
Qed.

(** The call of [diagnosis], [rationale], [explain] and [triage]. *)
Lemma diagnostic_outcome_call callee extend ev sex age ex iid kwargs st c hc :
  calls (diagnostic_outcome api callee extend ev sex age ex iid kwargs st).2
    = calls st ++ [(c, hc)] →
  ∃ lh hd,
    mapping_passed (dicts st) (kwargs !! "headers") hd ∧
    (kwargs !! "headers" = Some (VRef lh) ∨ dicts st !! lh = None) ∧
    kwargs !! "data" = None ∧
    hc = <[lh := get_interview_id_headers api iid ∪ hd]> (dicts st) ∧
    c = Call callee
          ({[ "data" := VDict (extend
                (APIv2Connector.get_diagnostic_data_dict hc ev sex age ex));
              "headers" := VRef lh ]} ∪ delete "headers" kwargs) ∧
    diagnostic_outcome api callee extend ev sex age ex iid kwargs st
    = (answered (transport api c hc),
       State hc (sessions st) (calls st ++ [(c, hc)])).
Proof.
  unfold diagnostic_outcome.
  destruct (popped_updated _ _ _) as [[lh mh]|] eqn:Hpu;
    [|by intros ?%eq_sym%app_singleton_neq].
  apply popped_updated_inv in Hpu as (hd & Hhd & -> & Hl).
  cbv zeta. rewrite run_mixin_call. case_bool_decide as Hd;
    [|by intros ?%eq_sym%app_singleton_neq].
  unfold invoke. cbn [dicts sessions calls set_dicts].
  intros Hc. exists lh, hd. split; [done|]. split; [done|].
  split; [by apply data_keyword_disjoint in Hd|].
  destruct (transport api _ _) eqn:Ht; cbn [snd calls] in Hc;
    apply app_singleton_inj in Hc; injection Hc as <- <-; by rewrite Ht.
Qed.

(** X5. The keyword arguments of the call: [parse], [suggest] and
    [red_flags] call with data, params and headers only ([red_flags] through
    [call_api_post], with the method of red_flags), so any other keyword
    argument of the caller is dropped; [diagnosis], [rationale], [explain]
    and [triage] pass every keyword argument other than headers on as it
    is. *)
Theorem session_call_keywords o iid kwargs st c hc :
  calls (run_session_op api o iid kwargs st).2 = calls st ++ [(c, hc)] →
  match o with
  | Parse _ _ =>
      c_callee c = "parse" ∧
      dom (c_kwargs c) = {[ "data"; "params"; "headers" ]}
  | Suggest _ _ _ _ _ =>
      c_callee c = "suggest" ∧
      dom (c_kwargs c) = {[ "data"; "params"; "headers" ]}
  | RedFlags _ _ _ _ _ =>
      c_callee c = "call_api_post" ∧
      c_kwargs c !! "method" = Some (get_method api "red_flags") ∧
      dom (c_kwargs c) = {[ "method"; "data"; "params"; "headers" ]}
  | DiagnosisOp _ _ _ _ =>
      c_callee c = "diagnosis" ∧
      ∀ k, k ≠ "headers" → k ≠ "data" → c_kwargs c !! k = kwargs !! k
  | Rationale _ _ _ _ =>
      c_callee c = "rationale" ∧
      ∀ k, k ≠ "headers" → k ≠ "data" → c_kwargs c !! k = kwargs !! k
  | Explain _ _ _ _ _ =>
      c_callee c = "explain" ∧
      ∀ k, k ≠ "headers" → k ≠ "data" → c_kwargs c !! k = kwargs !! k
  | Triage _ _ _ _ =>
      c_callee c = "triage" ∧
      ∀ k, k ≠ "headers" → k ≠ "data" → c_kwargs c !! k = kwargs !! k
  end.
Proof.
  assert (Hdiag : ∀ callee extend ev sex age ex,
    calls (diagnostic_outcome api callee extend ev sex age ex iid kwargs st).2
      = calls st ++ [(c, hc)] →
    c_callee c = callee ∧
    ∀ k, k ≠ "headers" → k ≠ "data" → c_kwargs c !! k = kwargs !! k).
  { intros * Hc.
    apply diagnostic_outcome_call in Hc as (lh & hd & _ & _ & _ & _ & -> & _).
    split; [done|]. intros k ? ?. simpl.
    rewrite lookup_union_r by by simplify_map_eq. by simplify_map_eq. }
  destruct o; simpl; try rewrite diagnosis_run; try rewrite rationale_run;
    try rewrite explain_run; try rewrite triage_run; try apply Hdiag.
  - rewrite parse_run.
    destruct (popped_updated _ _ _) as [[lh mh]|];
      [|by intros ?%eq_sym%app_singleton_neq].
    cbv zeta. destruct (popped_updated _ _ _) as [[ld md]|];
      [|by intros ?%eq_sym%app_singleton_neq].
    rewrite (proj1 (invoke_calls _ _ _)). intros Hc.
    apply app_singleton_inj in Hc. injection Hc as <- <-. simpl.
    split; [done|]. rewrite !dom_insert_L, dom_singleton_L. set_solver.
  - rewrite suggest_run.
    destruct (popped_updated _ _ _) as [[lp mp]|];
      [|by intros ?%eq_sym%app_singleton_neq].
    cbv zeta. destruct (popped_updated _ _ _) as [[lh mh]|];
      [|by intros ?%eq_sym%app_singleton_neq].
    rewrite (proj1 (invoke_calls _ _ _)). intros Hc.
    apply app_singleton_inj in Hc. injection Hc as <- <-. simpl.
    split; [done|]. rewrite !dom_insert_L, dom_singleton_L. set_solver.
  - rewrite red_flags_run.
    destruct (popped_updated _ _ _) as [[lp mp]|];
      [|by intros ?%eq_sym%app_singleton_neq].
    cbv zeta. destruct (popped_updated _ _ _) as [[lh mh]|];
      [|by intros ?%eq_sym%app_singleton_neq].
    rewrite (proj1 (invoke_calls _ _ _)). intros Hc.
    apply app_singleton_inj in Hc. injection Hc as <- <-. simpl.
    split; [done|]. split; [by simplify_map_eq|].
    rewrite !dom_insert_L, dom_singleton_L. set_solver.
Qed.

(** X6. The data of the call: for every session-bound method but [parse] it
    is the diagnostic payload of the method's arguments (with the target, for
    [explain]), whatever the caller passes as keyword arguments. *)
Theorem session_data_sent o iid kwargs st c hc d :
  session_payload hc o = Some d →
  calls (run_session_op api o iid kwargs st).2 = calls st ++ [(c, hc)] →
  c_kwargs c !! "data" = Some (VDict d).
Proof.
  assert (Hsr : ∀ callee ev sex age ex (lp lh : loc) h,
    calls (invoke api (Call callee
      (<["data" := VDict (APIv2Connector.get_diagnostic_data_dict h ev sex age ex)]>
         {[ "params" := VRef lp; "headers" := VRef lh ]}))
      (set_dicts h st)).2 = calls st ++ [(c, hc)] →
    c_kwargs c !! "data"
    = Some (VDict (APIv2Connector.get_diagnostic_data_dict hc ev sex age ex))).
  { intros * Hc. rewrite (proj1 (invoke_calls _ _ _)) in Hc.
    apply app_singleton_inj in Hc. injection Hc as <- <-. by simplify_map_eq. }
  destruct o; simpl; intros Hd; simplify_eq;
    try rewrite diagnosis_run; try rewrite rationale_run;
    try rewrite explain_run; try rewrite triage_run;
    try apply (diagnostic_outcome_data api _ id);
    try apply diagnostic_outcome_data.
  - rewrite suggest_run.
    destruct (popped_updated _ _ _) as [[lp mp]|];
      [|by intros ?%eq_sym%app_singleton_neq].
    cbv zeta. destruct (popped_updated _ _ _) as [[lh mh]|];
      [|by intros ?%eq_sym%app_singleton_neq].
    apply Hsr.
  - rewrite red_flags_run.
    destruct (popped_updated _ _ _) as [[lp mp]|];
      [|by intros ?%eq_sym%app_singleton_neq].
    cbv zeta. destruct (popped_updated _ _ _) as [[lh mh]|];
      [|by intros ?%eq_sym%app_singleton_neq].
    rewrite (proj1 (invoke_calls _ _ _)). intros Hc.
    apply app_singleton_inj in Hc. injection Hc as <- <-. by simplify_map_eq.
Qed.

(** X7. A caller's keyword argument named [data] makes [diagnosis],
    [rationale], [explain] and [triage] raise [TypeError] (the keyword is
    given twice in the call of the parent's method) without any call. *)
Theorem duplicate_data_keyword o iid kwargs st :
  forwards o = true →
  is_Some (kwargs !! "data") →
  optional_mapping (dicts st) kwargs "headers" →
  (run_session_op api o iid kwargs st).1 = Raise TypeError ∧
  calls (run_session_op api o iid kwargs st).2 = calls st.
Proof.
  intros Ho [v Hv] Hh.
  assert (Hdiag : ∀ callee extend ev sex age ex,
    (diagnostic_outcome api callee extend ev sex age ex iid kwargs st).1
      = Raise TypeError ∧
    calls (diagnostic_outcome api callee extend ev sex age ex iid kwargs st).2
      = calls st).
  { intros *. unfold diagnostic_outcome.
    destruct (popped_updated_mapping (dicts st) (kwargs !! "headers")
      (get_interview_id_headers api iid) Hh) as [[lh mh] ->].
    cbv zeta. rewrite run_mixin_call, bool_decide_eq_false_2; [done|].
    intros Hd. apply data_keyword_disjoint in Hd. congruence. }
  destruct o; try done; simpl.
  - rewrite diagnosis_run. apply Hdiag.
  - rewrite rationale_run. apply Hdiag.
  - rewrite explain_run. apply Hdiag.
  - rewrite triage_run. apply Hdiag.
Qed.

End session_more.

Section store.
Context (api : API).

Lemma popped_updated_frame h passed dd l' m l d :
  popped_updated h passed dd = Some (l', m) →
  h !! l = Some d →
  passed ≠ Some (VRef l) →
  <[l' := m]> h !! l = Some d.
Proof.
  intros Hpu Hl Hne. rewrite lookup_insert_ne; [done|].
  by eapply popped_updated_other.
Qed.

Lemma optional_mapping_insert h kwargs k l m :
  optional_mapping h kwargs k → optional_mapping (<[l := m]> h) kwargs k.
Proof.
  intros Hm v Hv. destruct (Hm v Hv) as [d Hd].
  destruct v; simplify_eq/=; [by eexists|].
  destruct (decide (l = l0)) as [->|]; simplify_map_eq; by eexists.
Qed.

(** X8. A session-bound method leaves every dictionary object that the
    caller holds and does not pass as a keyword argument as it is. *)
Theorem session_op_frame o iid kwargs st l d :
  dicts st !! l = Some d →
  (∀ k, kwargs !! k ≠ Some (VRef l)) →
  dicts (run_session_op api o iid kwargs st).2 !! l = Some d.
Proof.
  intros Hl Hk.
  assert (Hdiag : ∀ callee extend ev sex age ex,
    dicts (diagnostic_outcome api callee extend ev sex age ex iid kwargs st).2
      !! l = Some d).
  { intros *. unfold diagnostic_outcome.
    destruct (popped_updated _ _ _) as [[lh mh]|] eqn:Hpu; [|done].
    cbv zeta. rewrite mixin_call_dicts. simpl.
    by eapply popped_updated_frame. }
  assert (Htwo : ∀ k1 d1 k2 d2 (f : loc → loc → heap → call),
    dicts (match popped_updated (dicts st) (kwargs !! k1) d1 with
           | None => (Raise AttributeError, st)
           | Some (l1, m1) =>
               let h1 := <[l1 := m1]> (dicts st) in
               match popped_updated h1 (kwargs !! k2) d2 with
               | None => (Raise AttributeError, set_dicts h1 st)
               | Some (l2, m2) =>
                   let h2 := <[l2 := m2]> h1 in
                   invoke api (f l1 l2 h2) (set_dicts h2 st)
               end
           end).2 !! l = Some d).
  { intros *. destruct (popped_updated _ _ d1) as [[l1 m1]|] eqn:Hpu1; [|done].
    cbv zeta.
    assert (<[l1 := m1]> (dicts st) !! l = Some d)
      by by eapply popped_updated_frame.
    destruct (popped_updated _ _ d2) as [[l2 m2]|] eqn:Hpu2; [|done].
    rewrite (proj2 (invoke_calls _ _ _)). simpl.
    by eapply popped_updated_frame. }
  destruct o as [text include_tokens | ev sx ag ex mr | ev sx ag ex mr
                 | ev sx ag ex | ev sx ag ex | tg ev sx ag ex | ev sx ag ex];
    simpl; try rewrite diagnosis_run; try rewrite rationale_run;
    try rewrite explain_run; try rewrite triage_run; try apply Hdiag.
  - rewrite parse_run.
    apply (Htwo "headers" _ "data" _ (λ lh ld _, Call "parse"
      {[ "data" := VRef ld; "params" := default VNone (kwargs !! "params");
         "headers" := VRef lh ]})).
  - rewrite suggest_run.
    apply (Htwo "params" _ "headers" _ (λ lp lh h2, Call "suggest"
      {[ "data" := VDict
           (APIv2Connector.get_diagnostic_data_dict h2 ev sx ag ex);
         "params" := VRef lp; "headers" := VRef lh ]})).
  - rewrite red_flags_run.
    apply (Htwo "params" _ "headers" _ (λ lp lh h2, Call "call_api_post"
      {[ "method" := get_method api "red_flags";
         "data" := VDict
           (APIv2Connector.get_diagnostic_data_dict h2 ev sx ag ex);
         "params" := VRef lp; "headers" := VRef lh ]})).
Qed.

Lemma invoke_answered c h st :
  invoke api c (set_dicts h st)
  = (answered (transport api c h), State h (sessions st) (calls st ++ [(c, h)])).
Proof. unfold invoke. simpl. by destruct (transport api c h). Qed.

(** X9. A session-bound method whose optional mappings are left out or are
    mappings (and, for the methods that pass keyword arguments on, with no
    [data] among them) makes its call, returns what the transport answers or
    raises what it raises, and leaves the store as the transport saw it. *)
Theorem session_reaches_transport o iid kwargs st :
  optional_mapping (dicts st) kwargs "params" →
  optional_mapping (dicts st) kwargs "headers" →
  optional_mapping (dicts st) kwargs "data" →
  (forwards o = true → kwargs !! "data" = None) →
  ∃ c hc,
    run_session_op api o iid kwargs st
    = (answered (transport api c hc),
       State hc (sessions st) (calls st ++ [(c, hc)])).
Proof.
  intros Hp Hh Hd Hf.
  assert (Hdiag : ∀ callee extend ev sex age ex,
    kwargs !! "data" = None →
    ∃ c hc,
      diagnostic_outcome api callee extend ev sex age ex iid kwargs st
      = (answered (transport api c hc),
         State hc (sessions st) (calls st ++ [(c, hc)]))).
  { intros * Hn. unfold diagnostic_outcome.
    destruct (popped_updated_mapping (dicts st) (kwargs !! "headers")
      (get_interview_id_headers api iid) Hh) as [[lh mh] ->].
    cbv zeta. rewrite run_mixin_call, bool_decide_eq_true_2
      by by apply data_keyword_disjoint.
    eexists _, _. apply invoke_answered. }
  assert (Htwo : ∀ k1 d1 k2 d2 (f : loc → loc → heap → call),
    optional_mapping (dicts st) kwargs k1 →
    optional_mapping (dicts st) kwargs k2 →
    ∃ c hc,
      match popped_updated (dicts st) (kwargs !! k1) d1 with
      | None => (Raise AttributeError, st)
      | Some (l1, m1) =>
          let h1 := <[l1 := m1]> (dicts st) in
          match popped_updated h1 (kwargs !! k2) d2 with
          | None => (Raise AttributeError, set_dicts h1 st)
          | Some (l2, m2) =>
              let h2 := <[l2 := m2]> h1 in
              invoke api (f l1 l2 h2) (set_dicts h2 st)
          end
      end
      = (answered (transport api c hc),
         State hc (sessions st) (calls st ++ [(c, hc)]))).
  { intros k1 d1 k2 d2 f H1 H2.
    destruct (popped_updated_mapping (dicts st) (kwargs !! k1) d1 H1)
      as [[l1 m1] ->].
    cbv zeta.
    destruct (popped_updated_mapping (<[l1 := m1]> (dicts st)) (kwargs !! k2) d2
      (optional_mapping_insert _ _ _ _ _ H2)) as [[l2 m2] ->].
    eexists _, _. apply invoke_answered. }
  destruct o as [text include_tokens | ev sx ag ex mr | ev sx ag ex mr
                 | ev sx ag ex | ev sx ag ex | tg ev sx ag ex | ev sx ag ex];
    simpl; try rewrite diagnosis_run; try rewrite rationale_run;
    try rewrite explain_run; try rewrite triage_run;
    try (apply Hdiag; by apply Hf).
  - rewrite parse_run.
    apply (Htwo "headers" _ "data" _ (λ lh ld _, Call "parse"
      {[ "data" := VRef ld; "params" := default VNone (kwargs !! "params");
         "headers" := VRef lh ]})); done.
  - rewrite suggest_run.
    apply (Htwo "params" _ "headers" _ (λ lp lh h2, Call "suggest"
      {[ "data" := VDict
           (APIv2Connector.get_diagnostic_data_dict h2 ev sx ag ex);
         "params" := VRef lp; "headers" := VRef lh ]})); done.
  - rewrite red_flags_run.
    apply (Htwo "params" _ "headers" _ (λ lp lh h2, Call "call_api_post"
      {[ "method" := get_method api "red_flags";
         "data" := VDict
           (APIv2Connector.get_diagnostic_data_dict h2 ev sx ag ex);
         "params" := VRef lp; "headers" := VRef lh ]})); done.
Qed.

(** X10. The headers of a call whose caller passes none: a new dictionary
    object, holding exactly what [get_interview_id_headers] gives for the
    interview id. *)
Theorem headers_without_caller_headers o iid kwargs st c hc :
  kwargs !! "headers" = None →
  optional_mapping (dicts st) kwargs "data" →
  calls (run_session_op api o iid kwargs st).2 = calls st ++ [(c, hc)] →
  ∃ l,
    dicts st !! l = None ∧
    c_kwargs c !! "headers" = Some (VRef l) ∧
    hc !! l = Some (get_interview_id_headers api iid).
Proof.
  intros Hk Hd.
  assert (Hdiag : ∀ callee extend ev sex age ex,
    calls (diagnostic_outcome api callee extend ev sex age ex iid kwargs st).2
      = calls st ++ [(c, hc)] →
    ∃ l, dicts st !! l = None ∧ c_kwargs c !! "headers" = Some (VRef l) ∧
         hc !! l = Some (get_interview_id_headers api iid)).
  { intros * Hc.
    apply diagnostic_outcome_call in Hc
      as (lh & hd & Hhd & Hl & _ & -> & -> & _).
    rewrite Hk in Hhd, Hl. simpl in Hhd. subst hd.
    destruct Hl as [|Hl]; [done|]. exists lh. split; [done|]. split.
    - simpl. apply lookup_union_Some_l. by simplify_map_eq.
    - rewrite (right_id_L ∅ (∪)). by simplify_map_eq. }
  assert (Hfresh : ∀ (h : heap) l0 m0,
    dicts st !! fresh (dom (<[l0 := m0]> (dicts st))) = None).
  { intros h l0 m0. apply not_elem_of_dom. intros Hin.
    apply (is_fresh (dom (<[l0 := m0]> (dicts st)))).
    apply elem_of_dom, lookup_insert_is_Some'. right. by apply elem_of_dom. }
  destruct o as [text include_tokens | ev sx ag ex mr | ev sx ag ex mr
                 | ev sx ag ex | ev sx ag ex | tg ev sx ag ex | ev sx ag ex];
    simpl; try rewrite diagnosis_run; try rewrite rationale_run;
    try rewrite explain_run; try rewrite triage_run; try apply Hdiag.
  - rewrite parse_run, Hk. cbn [popped_updated]. cbv zeta.
    set (lh := fresh (dom (dicts st))).
    assert (Hlh : dicts st !! lh = None) by apply not_elem_of_dom, is_fresh.
    rewrite (right_id_L ∅ (∪)).
    destruct (popped_updated _ (kwargs !! "data") _) as [[ld md]|] eqn:Hpu;
      [|by intros ?%eq_sym%app_singleton_neq].
    assert (ld ≠ lh).
    { apply popped_updated_inv in Hpu as (d0 & _ & _ & [Hv|Hn]).
      - destruct (Hd _ Hv) as [d1 Hd1]. simpl in Hd1. congruence.
      - intros ->. by simplify_map_eq. }
    rewrite (proj1 (invoke_calls _ _ _)). intros Hc.
    apply app_singleton_inj in Hc. injection Hc as <- <-.
    exists lh. by simplify_map_eq.
  - rewrite suggest_run.
    destruct (popped_updated _ _ _) as [[lp mp]|];
      [|by intros ?%eq_sym%app_singleton_neq].
    cbv zeta. rewrite Hk. cbn [popped_updated].
    rewrite (proj1 (invoke_calls _ _ _)), (right_id_L ∅ (∪)). intros Hc.
    apply app_singleton_inj in Hc. injection Hc as <- <-.
    eexists. split; [by apply (Hfresh ∅)|]. by simplify_map_eq.
  - rewrite red_flags_run.
    destruct (popped_updated _ _ _) as [[lp mp]|];
      [|by intros ?%eq_sym%app_singleton_neq].
    cbv zeta. rewrite Hk. cbn [popped_updated].
    rewrite (proj1 (invoke_calls _ _ _)), (right_id_L ∅ (∪)). intros Hc.
    apply app_singleton_inj in Hc. injection Hc as <- <-.
    eexists. split; [by apply (Hfresh ∅)|]. by simplify_map_eq.
Qed.

End store.

Section reuse.
Context (api : API).

(** X11. Two session-bound calls with the same headers mapping: the second
    merges over what the first left in it. So an interview id that the first
    call put there is still there, and is sent, in a second call for which
    [get_interview_id_headers] gives nothing. *)
Theorem headers_accumulate o1 o2 iid1 iid2 kwargs1 kwargs2 st l hd :
  passed_only_as kwargs1 "headers" l →
  passed_only_as kwargs2 "headers" l →
  kwargs1 !! "params" = None →
  kwargs2 !! "params" = None →
  dicts st !! l = Some hd →
  let st1 := (run_session_op api o1 iid1 kwargs1 st).2 in
  let st2 := (run_session_op api o2 iid2 kwargs2 st1).2 in
  let sent := get_interview_id_headers api iid2
              ∪ (get_interview_id_headers api iid1 ∪ hd) in
  dicts st2 !! l = Some sent ∧
  (∀ c hc, calls st2 = calls st1 ++ [(c, hc)] →
     c_kwargs c !! "headers" = Some (VRef l) ∧ hc !! l = Some sent) ∧
  (interview_id_given iid1 → get_interview_id_headers api iid2 = ∅ →
   sent !! interview_id_header api = Some iid1).
Proof.
  intros Hk1 Hk2 Hp1 Hp2 Hl st1 st2 sent.
  assert (Hnone : ∀ h kwargs, kwargs !! "params" = None →
    optional_mapping h kwargs "params").
  { intros h kwargs Hn v Hv. congruence. }
  destruct (session_op_headers api o1 iid1 kwargs1 st l hd Hk1 Hl) as [H1 _].
  specialize (H1 (Hnone _ _ Hp1)).
  destruct (session_op_headers api o2 iid2 kwargs2 st1 l _ Hk2 H1) as [H2 H2c].
  split; [by apply H2, Hnone|]. split; [done|].
  intros Hiid Hempty. unfold sent.
  rewrite Hempty, (left_id_L ∅ (∪)), interview_id_headers_given by done.
  by simplify_map_eq.
Qed.

(** X12. [suggest] and [red_flags] of the same arguments make the same
    request: they leave the same store, and when one makes a call so does
    the other, with the same data, params and headers. *)
Theorem suggest_red_flags_same_request ev sex age ex mr iid kwargs st :
  let s := run_session_op api (Suggest ev sex age ex mr) iid kwargs st in
  let r := run_session_op api (RedFlags ev sex age ex mr) iid kwargs st in
  dicts s.2 = dicts r.2 ∧
  ∀ cs hs, calls s.2 = calls st ++ [(cs, hs)] →
    ∃ cr, calls r.2 = calls st ++ [(cr, hs)] ∧
      ∀ k, k ∈ ["data"; "params"; "headers"] →
           c_kwargs cr !! k = c_kwargs cs !! k.
Proof.
  simpl. rewrite suggest_run, red_flags_run.
  destruct (popped_updated _ _ _) as [[lp mp]|];
    [|split; [done | by intros ?? ?%eq_sym%app_singleton_neq]].
  cbv zeta. destruct (popped_updated _ _ _) as [[lh mh]|];
    [|split; [done | by intros ?? ?%eq_sym%app_singleton_neq]].
  rewrite !(proj2 (invoke_calls _ _ _)), !(proj1 (invoke_calls _ _ _)).
  split; [done|]. intros cs hs Hc.
  apply app_singleton_inj in Hc. injection Hc as <- <-.
  eexists. split; [done|]. intros k Hk. simpl.
  assert (k = "data" ∨ k = "params" ∨ k = "headers") as [->|[->| ->]]
    by set_solver; by simplify_map_eq.
Qed.

(** X13. [parse] passes [params] on as the caller gave it ([None] when left
    out) and writes nothing into it: a params object that is not also the
    headers or the data holds at the call what it held before. *)
Theorem parse_params_untouched text include_tokens iid kwargs st c hc :
  calls (APIv2Connector.parse api text include_tokens iid kwargs st).2
    = calls st ++ [(c, hc)] →
  c_kwargs c !! "params" = Some (default VNone (kwargs !! "params")) ∧
  ∀ p d, kwargs !! "params" = Some (VRef p) →
         dicts st !! p = Some d →
         kwargs !! "headers" ≠ Some (VRef p) →
         kwargs !! "data" ≠ Some (VRef p) →
         hc !! p = Some d.
Proof.
  rewrite parse_run.
  destruct (popped_updated _ (kwargs !! "headers") _) as [[lh mh]|] eqn:Hpu1;
    [|by intros ?%eq_sym%app_singleton_neq].
  cbv zeta. destruct (popped_updated _ (kwargs !! "data") _) as [[ld md]|] eqn:Hpu2;
    [|by intros ?%eq_sym%app_singleton_neq].
  rewrite (proj1 (invoke_calls _ _ _)). intros Hc.
  apply app_singleton_inj in Hc. injection Hc as <- <-. simpl.
  split; [by simplify_map_eq|]. intros p d Hp Hd Hnh Hnd.
  eapply popped_updated_frame; [done| |done].
  by eapply popped_updated_frame.
Qed.

(** X14. [search] writes into the params object only: every other
    dictionary object of the caller, the headers it may pass among them, is
    left as it is. *)
Theorem search_frame phrase sex mr types kwargs st l d :
  dicts st !! l = Some d →
  kwargs !! "params" ≠ Some (VRef l) →
  dicts (APIv2Connector.search api phrase sex mr types kwargs st).2 !! l
  = Some d.
Proof.
  intros Hl Hk. rewrite search_run.
  destruct (popped_updated _ _ _) as [[lp mp]|] eqn:Hpu; [|done].
  assert (lp ≠ l) by by eapply popped_updated_other.
  cbv zeta.
  destruct types as [[|t ts]|]; try destruct (first_invalid _ _);
    rewrite ?mixin_call_dicts; simpl; by simplify_map_eq.
Qed.

End reuse.

Section sessions.
Context (api : API).

Global Instance same_but_preorder r : PreOrder (same_but r).
Proof.
  split.
  - by intros s r' _.
  - intros s1 s2 s3 H12 H23 r' Hr. by rewrite H23, H12.
Qed.

Section keeps.
Context (R : relation (gmap loc Diagnosis)) `{!PreOrder R}.










End keeps.





















End sessions.

Section repeated.
Context (api : API).

Lemma keywords_repeated (a b : dict) k st :
  is_Some (a !! k) → is_Some (b !! k) →
  keywords a b st = (Raise TypeError, st).
Proof.
  intros [x Hx] [y Hy]. unfold keywords. rewrite bool_decide_eq_false_2; [done|].
  intros Hd. by apply (map_disjoint_spec a b) with (i := k) (x := x) (y := y).
Qed.

Lemma session_keywords_interview_id (a : dict) (s : Diagnosis) st :
  a ##ₘ get_api_request s →
  is_Some (a !! "interview_id") →
  ∃ kw, keywords a (get_api_request s) st = (Ok kw, st) ∧
        is_Some (kw !! "interview_id").
Proof.
  intros Hd [x Hx]. exists (a ∪ get_api_request s).
  split; [by apply run_keywords_disjoint|].
  exists x. by apply lookup_union_Some_l.
Qed.

(** X16. On session objects, [diagnosis], [rationale], [explain] and [triage]
    pass the session's interview id by keyword together with the caller's
    keyword arguments: a caller who gives [interview_id] gets a [TypeError],
    nothing is sent and nothing changes. *)
Theorem interview_id_repeated diagnosis_request S kwargs st :
  sessions st !! diagnosis_request = Some S →
  is_Some (kwargs !! "interview_id") →
  ModelAPIv2Connector.diagnosis api diagnosis_request kwargs st
    = (Raise TypeError, st) ∧
  ModelAPIv2Connector.rationale api diagnosis_request kwargs st
    = (Raise TypeError, st) ∧
  (∀ target_id,
     ModelAPIv2Connector.explain api diagnosis_request target_id kwargs st
     = (Raise TypeError, st)) ∧
  ModelAPIv2Connector.triage api diagnosis_request kwargs st
    = (Raise TypeError, st).
Proof.
  intros HS Hk.
  assert (H1 : ∀ a : dict, a ##ₘ get_api_request S →
    is_Some (a !! "interview_id") → ∀ {A} (f : dict → M A),
    (kw ← keywords a (get_api_request S); kw ← keywords kw kwargs; f kw) st
    = (Raise TypeError, st)).
  { intros a Hd Ha A f.
    destruct (session_keywords_interview_id a S st Hd Ha) as (kw & Hkw & Hi).
    by rewrite run_bind, Hkw, run_bind,
      (keywords_repeated kw kwargs "interview_id"). }
  assert (Hd : ∀ a : dict, (∀ k, is_Some (a !! k) →
      k ∉ ["sex"; "age"; "evidence"; "extras"]) → a ##ₘ get_api_request S).
  { intros a Ha. apply map_disjoint_spec. intros k x y Hx Hy.
    apply (Ha k); [by eexists|]. unfold get_api_request in Hy.
    repeat (apply lookup_insert_Some in Hy as [[<- _]|[_ Hy]]; [set_solver|]).
    apply lookup_singleton_Some in Hy as [<- _]. set_solver. }
  unfold ModelAPIv2Connector.diagnosis, ModelAPIv2Connector.rationale,
    ModelAPIv2Connector.explain, ModelAPIv2Connector.triage.
  split_and!; [| |intros target_id|];
    rewrite run_bind; unfold get_session at 1; rewrite HS; cbv zeta;
    apply H1.
  all: try (apply Hd; intros k [x Hx]).
  all: try (apply lookup_singleton_Some in Hx as [<- _]; set_solver).
  all: try by rewrite lookup_singleton_eq.
  - apply lookup_insert_Some in Hx as [[<- _]|[_ Hx]]; [set_solver|].
    apply lookup_singleton_Some in Hx as [<- _]. set_solver.
  - rewrite lookup_insert_ne by done. by rewrite lookup_singleton_eq.
Qed.

End repeated.

(** ** The further properties on closed inputs *)

Lemma search_types_sent_witness :
  let api := example_api (answers (VList [])) in
  let res := APIv2Connector.search api (VStr "head") VNone (VInt 8)
               (Some filters_example) search_kwargs search_state in
  Forall (resolves api) filters_example ∧
  ∃ l sent,
    c_kwargs (last_call res.2).1 !! "params" = Some (VRef l) ∧
    (last_call res.2).2 !! l = Some sent ∧
    sent !! "type" = Some (VList [VStr "symptom"; VStr "lab_test"]) ∧
    sent !! "phrase" = Some (VStr "head") ∧
    sent !! "max_results" = Some (VInt 8).
Proof.
  intros api res.
  apply (search_types_sent api (VStr "head") VNone (VInt 8) filters_example
    search_kwargs search_state (last_call res.2).1 (last_call res.2).2).
  - discriminate.
  - vm_compute. reflexivity.
Defined.

Lemma search_absent_filters_witness :
  let api := example_api (answers (VList [])) in
  let res := APIv2Connector.search api (VStr "head") VNone (VInt 8) None
               search_kwargs search_state in
  ∃ l sent,
    c_kwargs (last_call res.2).1 !! "params" = Some (VRef l) ∧
    (last_call res.2).2 !! l = Some sent ∧
    sent !! "type" = None ∧ sent !! "sex" = None.
Proof.
  intros api res.
  destruct (search_absent_filters api (VStr "head") VNone (VInt 8) None
    search_kwargs search_state {[ "max_results" := VInt 100 ]}
    (last_call res.2).1 (last_call res.2).2)
    as (l & sent & Hc & Hs & Ht & Hx & _).
  - reflexivity.
  - vm_compute. reflexivity.
  - exists l, sent. split; [exact Hc|]. split; [exact Hs|]. split.
    + rewrite Ht by by left. reflexivity.
    + rewrite Hx by by left. reflexivity.
Defined.

Lemma search_reaches_transport_witness :
  let api := example_api (fails NetworkError) in
  ∃ c hc,
    APIv2Connector.search api (VStr "head") VNone (VInt 8)
      (Some filters_example) search_kwargs search_state
    = (Raise NetworkError,
       State hc (sessions search_state) (calls search_state ++ [(c, hc)])) ∧
    c_callee c = "search" ∧
    ∀ k, k ≠ "params" → c_kwargs c !! k = search_kwargs !! k.
Proof.
  intros api.
  apply (search_reaches_transport api (VStr "head") VNone (VInt 8)
    (Some filters_example) search_kwargs search_state).
  - intros v Hv. vm_compute in Hv. injection Hv as <-. by eexists.
  - intros ts [= <-]. repeat constructor.
Defined.

Lemma results_are_conversions_witness :
  let api := example_api (answers (VList [])) in
  (run api (ModelRedFlags 1%positive (VInt 8) ∅) (caller_state ∅)).1
  = Ok (Typed (VList [] : model api)).
Proof.
  intros api.
  destruct (results_are_conversions api (ModelRedFlags 1%positive (VInt 8) ∅)
    (caller_state ∅)
    (last_call (run api (ModelRedFlags 1%positive (VInt 8) ∅)
                  (caller_state ∅)).2).1
    (last_call (run api (ModelRedFlags 1%positive (VInt 8) ∅)
                  (caller_state ∅)).2).2
    (VList [])) as [_ H].
  - vm_compute. reflexivity.
  - reflexivity.
  - apply (H "RedFlagList"); reflexivity.
Defined.

Lemma session_call_keywords_witness :
  let api := example_api (answers (VList [])) in
  let res := run_session_op api suggest_example (VStr "abc123")
               (<["verbose" := VBool true]> headers_kwargs)
               (caller_state traced_headers) in
  c_callee (last_call res.2).1 = "suggest" ∧
  dom (c_kwargs (last_call res.2).1) = {[ "data"; "params"; "headers" ]}.
Proof.
  intros api res.
  apply (session_call_keywords api suggest_example (VStr "abc123")
    (<["verbose" := VBool true]> headers_kwargs) (caller_state traced_headers)
    (last_call res.2).1 (last_call res.2).2).
  vm_compute. reflexivity.
Defined.

Lemma session_data_sent_witness :
  let api := example_api (answers (VList [])) in
  let res := run_session_op api suggest_example (VStr "abc123") data_kwargs
               (caller_state traced_headers) in
  c_kwargs (last_call res.2).1 !! "data"
  = Some (VDict (APIv2Connector.get_diagnostic_data_dict (last_call res.2).2
       example_evidence (VStr "male") (VInt 42) VNone)).
Proof.
  intros api res.
  apply (session_data_sent api suggest_example (VStr "abc123") data_kwargs
    (caller_state traced_headers) (last_call res.2).1 (last_call res.2).2).
  - reflexivity.
  - vm_compute. reflexivity.
Defined.

Lemma duplicate_data_keyword_witness :
  let api := example_api (answers (VDict ∅)) in
  let res := run_session_op api triage_example (VStr "abc123") data_kwargs
               (caller_state traced_headers) in
  res.1 = Raise TypeError ∧ calls res.2 = calls (caller_state traced_headers).
Proof.
  intros api res.
  apply (duplicate_data_keyword api triage_example (VStr "abc123") data_kwargs
    (caller_state traced_headers)).
  - reflexivity.
  - by eexists.
  - intros v Hv. vm_compute in Hv. discriminate.
Defined.

Lemma session_op_frame_witness :
  let api := example_api (answers (VList [])) in
  dicts (run_session_op api suggest_example (VStr "abc123") ∅
           (caller_state traced_headers)).2 !! 1%positive
  = Some traced_headers.
Proof.
  intros api.
  apply (session_op_frame api suggest_example (VStr "abc123") ∅
    (caller_state traced_headers) 1%positive traced_headers).
  - reflexivity.
  - intros k. rewrite lookup_empty. discriminate.
Defined.

Lemma session_reaches_transport_witness :
  let api := example_api (fails NetworkError) in
  ∃ c hc,
    run_session_op api triage_example (VStr "abc123") headers_kwargs
      (caller_state traced_headers)
    = (Raise NetworkError,
       State hc (sessions (caller_state traced_headers))
         (calls (caller_state traced_headers) ++ [(c, hc)])).
Proof.
  intros api.
  apply (session_reaches_transport api triage_example (VStr "abc123")
    headers_kwargs (caller_state traced_headers)).
  - intros v Hv. vm_compute in Hv. discriminate.
  - intros v Hv. vm_compute in Hv. injection Hv as <-. by eexists.
  - intros v Hv. vm_compute in Hv. discriminate.
  - intros _. reflexivity.
Defined.

Lemma headers_without_caller_headers_witness :
  let api := example_api (answers (VList [])) in
  let res := run_session_op api suggest_example (VStr "abc123") ∅
               (caller_state traced_headers) in
  ∃ l,
    dicts (caller_state traced_headers) !! l = None ∧
    c_kwargs (last_call res.2).1 !! "headers" = Some (VRef l) ∧
    (last_call res.2).2 !! l = Some {[ "Interview-Id" := VStr "abc123" ]}.
Proof.
  intros api res.
  apply (headers_without_caller_headers api suggest_example (VStr "abc123") ∅
    (caller_state traced_headers) (last_call res.2).1 (last_call res.2).2).
  - reflexivity.
  - intros v Hv. rewrite lookup_empty in Hv. discriminate.
  - vm_compute. reflexivity.
Defined.

Lemma headers_accumulate_witness :
  let api := example_api (answers (VDict ∅)) in
  let st1 := (run_session_op api suggest_example (VStr "abc123") headers_kwargs
                (caller_state traced_headers)).2 in
  let st2 := (run_session_op api triage_example VNone headers_kwargs st1).2 in
  c_kwargs (last_call st2).1 !! "headers" = Some (VRef 1%positive) ∧
  ∃ sent,
    (last_call st2).2 !! 1%positive = Some sent ∧
    sent !! "Interview-Id" = Some (VStr "abc123").
Proof.
  intros api st1 st2.
  assert (Hk : passed_only_as headers_kwargs "headers" 1%positive).
  { split; [reflexivity|]. intros k' Hk'. unfold headers_kwargs.
    rewrite lookup_singleton_ne by done. discriminate. }
  destruct (headers_accumulate api suggest_example triage_example
    (VStr "abc123") VNone headers_kwargs headers_kwargs
    (caller_state traced_headers) 1%positive traced_headers Hk Hk
    eq_refl eq_refl eq_refl) as (_ & Hc & Hi).
  destruct (Hc (last_call st2).1 (last_call st2).2) as [Hh Hs].
  { vm_compute. reflexivity. }
  split; [exact Hh|]. eexists. split; [exact Hs|].
  apply Hi; [|reflexivity]. eexists. split; [reflexivity | discriminate].
Defined.

Lemma parse_params_untouched_witness :
  let api := example_api (answers (VDict ∅)) in
  let res := APIv2Connector.parse api (VStr "headache") (VBool false) VNone
               search_kwargs search_state in
  c_kwargs (last_call res.2).1 !! "params" = Some (VRef 1%positive) ∧
  (last_call res.2).2 !! 1%positive = Some {[ "max_results" := VInt 100 ]}.
Proof.
  intros api res.
  destruct (parse_params_untouched api (VStr "headache") (VBool false) VNone
    search_kwargs search_state (last_call res.2).1 (last_call res.2).2)
    as [Hp Hd].
  - vm_compute. reflexivity.
  - split; [exact Hp|]. apply Hd; [reflexivity | reflexivity | |];
      unfold search_kwargs; rewrite lookup_singleton_ne by done; discriminate.
Defined.

Lemma search_frame_witness :
  let api := example_api (answers (VList [])) in
  dicts (APIv2Connector.search api (VStr "head") VNone (VInt 8) None
           headers_kwargs (caller_state traced_headers)).2 !! 1%positive
  = Some traced_headers.
Proof.
  intros api.
  apply (search_frame api (VStr "head") VNone (VInt 8) None headers_kwargs
    (caller_state traced_headers) 1%positive traced_headers).
  - reflexivity.
  - unfold headers_kwargs. rewrite lookup_singleton_ne by done. discriminate.
Defined.

Lemma interview_id_repeated_witness :
  let api := example_api (answers (VDict ∅)) in
  ModelAPIv2Connector.triage api 1%positive interview_id_kwargs
    (caller_state traced_headers)
  = (Raise TypeError, caller_state traced_headers).
Proof.
  intros api.
  apply (interview_id_repeated api 1%positive example_session
    interview_id_kwargs (caller_state traced_headers)).
  - reflexivity.
  - by eexists.
Defined.


(** A dictionary that is passed by keyword is written to, also when a
    session object refers to it: with the extras of the session object as
    headers, the extras come to hold the interview id, and the session
    object is the same record. *)
Lemma session_extras_as_headers :
  let api := example_api (answers (VDict ∅)) in
  let st' := (run api (ModelTriage 1%positive extras_as_headers_kwargs)
                linked_state).2 in
  sessions st' = sessions linked_state ∧
  dicts st' !! 1%positive
  = Some (<["Interview-Id" := VStr "abc123"]> {[ "note" := VStr "x" ]}).
Proof. split; vm_compute; reflexivity. Qed.
